(** * xchess voice core: transcript parser and spoken-phrase formatter

    A shallow embedding of [src/ts/voice/MoveParser.ts], of the class
    [TTSConfirmation] from [src/ts/voice/TTSConfirmation.ts] and of
    [VoiceBridge.processTranscript] from [src/ts/voice/VoiceBridge.ts],
    followed by the properties that are verified about them.

    Conventions of the embedding.
    - A JavaScript string is a sequence of UTF-16 code units.  The model
      covers the strings whose code units are below 256, one [ascii] per
      code unit (so the Latin-1 range, of which the chess vocabulary only
      uses the ASCII part).
    - [undefined] and [null] are [None]; JavaScript truthiness of a
      [string | undefined] value is [truthy].
    - The confidence numbers are the decimal literals of the source, kept
      as rationals; the source only ever stores and returns them.
    - [console.log] in [parseMove] has no effect on the result and is left
      out. *)

From Stdlib Require Import Bool Arith Lia List Ascii String QArith.
Import ListNotations.

Local Open Scope string_scope.
Local Open Scope list_scope.
Local Open Scope nat_scope.

(** ** JavaScript string primitives *)

Module JS.

Definition code (a : ascii) : nat := nat_of_ascii a.

Definition between (lo hi : nat) (a : ascii) : bool :=
  (lo <=? code a) && (code a <=? hi).

(** [\s] restricted to code units below 256: TAB, LF, VT, FF, CR, space
    and the no-break space U+00A0. *)
Definition isSpace (a : ascii) : bool :=
  between 9 13 a || (code a =? 32) || (code a =? 160).

(** [\w] is [[A-Za-z0-9_]]. *)
Definition isWordChar (a : ascii) : bool :=
  between 65 90 a || between 97 122 a || between 48 57 a || (code a =? 95).

(** [String.prototype.toLowerCase] on code units below 256: [A-Z] and the
    Latin-1 capitals U+00C0..U+00DE (U+00D7 is the multiplication sign)
    move up by 32, everything else is unchanged. *)
Definition lowerChar (a : ascii) : ascii :=
  if between 65 90 a
     || (between 192 222 a && negb (code a =? 215))
  then ascii_of_nat (code a + 32) else a.

Fixpoint mapChars (f : ascii -> ascii) (s : string) : string :=
  match s with
  | EmptyString => EmptyString
  | String a s' => String (f a) (mapChars f s')
  end.

Definition toLowerCase (s : string) : string := mapChars lowerChar s.

(** [toUpperCase] is only ever applied to a regex capture made of the
    letters [a-z]; on other code units the model leaves the unit alone. *)
Definition upperChar (a : ascii) : ascii :=
  if between 97 122 a then ascii_of_nat (code a - 32) else a.

Definition toUpperCase (s : string) : string := mapChars upperChar s.

(** [s.startsWith(p)] *)
Definition startsWith (s p : string) : bool := String.prefix p s.

(** [s.includes(sub)] *)
Fixpoint includes (s sub : string) : bool :=
  String.prefix sub s
  || match s with
     | EmptyString => false
     | String _ s' => includes s' sub
     end.

(** [arr.includes(x)] on an array of strings *)
Definition arrayIncludes (arr : list string) (x : string) : bool :=
  existsb (String.eqb x) arr.

(** [s.replace(/[^\w\s]/g, ' ')] *)
Definition replacePunctuation (s : string) : string :=
  mapChars (fun a => if isWordChar a || isSpace a then a else " "%char) s.

(** [s.split(/\s+/)]: every maximal run of white space is one separator; a
    separator at either end of the string leaves an empty string there, and
    the empty string splits into one empty string. *)
Fixpoint splitSpaces (s : string) : list string :=
  match s with
  | EmptyString => [EmptyString]
  | String a s' =>
      if isSpace a then
        match s' with
        | String b _ => if isSpace b then splitSpaces s'
                        else EmptyString :: splitSpaces s'
        | EmptyString => EmptyString :: splitSpaces s'
        end
      else
        match splitSpaces s' with
        | t :: ts => String a t :: ts
        | [] => [String a EmptyString]
        end
  end.

(** [arr.join(' ')] *)
Definition join (ws : list string) : string := String.concat " " ws.

(** Truthiness of a value of type [string | undefined | null]. *)
Definition truthy (o : option string) : bool :=
  match o with
  | Some s => negb (String.eqb s "")
  | None => false
  end.

(** [s[i]]: the one-unit string at index [i], or [undefined]. *)
Definition charAt (s : string) (i : nat) : option string :=
  match String.get i s with
  | Some a => Some (String a EmptyString)
  | None => None
  end.

End JS.

(** ** Regular expressions

    A backtracking matcher with capture groups, with the priorities of the
    JavaScript engine: alternatives left to right, quantifiers greedy. *)

Module Regex.

Inductive regex : Type :=
| Chr (p : ascii -> bool)        (* a character class *)
| Lit (s : string)               (* literal text *)
| Seq (r1 r2 : regex)
| Alt (r1 r2 : regex)            (* r1|r2 *)
| Opt (r : regex)                (* r? *)
| Star (r : regex)               (* r* *)
| Group (n : nat) (r : regex)    (* the n-th capturing group *)
| Bos                            (* ^ *)
| Eos.                           (* $ *)

Definition captures := list (nat * string).

(** A continuation receives the index reached, the rest of the input and
    the groups captured so far. *)
Definition cont := nat -> string -> captures -> option captures.

Fixpoint stripPrefix (p s : string) : option string :=
  match p, s with
  | EmptyString, _ => Some s
  | String a p', String b s' => if Ascii.eqb a b then stripPrefix p' s' else None
  | String _ _, EmptyString => None
  end.

Fixpoint run (r : regex) (i : nat) (s : string) (c : captures) (k : cont)
  {struct r} : option captures :=
  match r with
  | Chr p =>
      match s with
      | String a s' => if p a then k (S i) s' c else None
      | EmptyString => None
      end
  | Lit l =>
      match stripPrefix l s with
      | Some s' => k (i + String.length l) s' c
      | None => None
      end
  | Seq r1 r2 => run r1 i s c (fun i' s' c' => run r2 i' s' c' k)
  | Alt r1 r2 =>
      match run r1 i s c k with
      | Some m => Some m
      | None => run r2 i s c k
      end
  | Opt r1 =>
      match run r1 i s c k with
      | Some m => Some m
      | None => k i s c
      end
  | Star r1 =>
      (fix loop (fuel : nat) (i : nat) (s : string) (c : captures) :=
         match fuel with
         | O => k i s c
         | S fuel' =>
             match run r1 i s c
                     (fun i' s' c' =>
                        if String.length s' <? String.length s
                        then loop fuel' i' s' c' else None) with
             | Some m => Some m
             | None => k i s c
             end
         end) (String.length s) i s c
  | Group n r1 =>
      run r1 i s c
        (fun i' s' c' => k i' s' ((n, String.substring 0 (i' - i) s) :: c'))
  | Bos => if i =? 0 then k i s c else None
  | Eos =>
      match s with
      | EmptyString => k i s c
      | String _ _ => None
      end
  end.

(** [s.match(r)] without the [g] flag: the leftmost start index at which
    the pattern matches. *)
Fixpoint execFrom (r : regex) (i : nat) (s : string) : option captures :=
  match run r i s [] (fun _ _ c => Some c) with
  | Some m => Some m
  | None =>
      match s with
      | EmptyString => None
      | String _ s' => execFrom r (S i) s'
      end
  end.

Definition exec (r : regex) (s : string) : option captures := execFrom r 0 s.

(** [match[n]] for [n >= 1]. *)
Fixpoint group (n : nat) (m : captures) : option string :=
  match m with
  | [] => None
  | (k, v) :: m' => if k =? n then Some v else group n m'
  end.

Definition plus (r : regex) : regex := Seq r (Star r).

Fixpoint alts (ls : list string) : regex :=
  match ls with
  | [] => Lit ""
  | [l] => Lit l
  | l :: ls' => Alt (Lit l) (alts ls')
  end.

End Regex.

Import Regex.

Declare Scope regex_scope.
Delimit Scope regex_scope with re.
Infix ">>" := Seq (at level 61, right associativity) : regex_scope.

(** Character classes used by the parser's patterns. *)
Definition file_a_h : regex := Chr (JS.between 97 104).
Definition rank_1_8 : regex := Chr (JS.between 49 56).
Definition space : regex := Chr JS.isSpace.
Definition square : regex := (file_a_h >> rank_1_8)%re.
Definition oneOf (letters : string) : regex :=
  Chr (fun a => JS.includes letters (String a EmptyString)).

(** ** Vocabulary tables *)

(** An object literal used as a dictionary, in source order. *)
Definition table := list (string * string).

Fixpoint own (t : table) (key : string) : option string :=
  match t with
  | [] => None
  | (k, v) :: t' => if String.eqb k key then Some v else own t' key
  end.

Definition homophones : table :=
  [ (* Numbers *)
    ("won", "1"); ("one", "1");
    ("to", "2"); ("too", "2"); ("two", "2");
    ("three", "3"); ("tree", "3");
    ("for", "4"); ("four", "4"); ("fore", "4");
    ("five", "5"); ("fife", "5");
    ("six", "6"); ("sick", "6");
    ("seven", "7");
    ("ate", "8"); ("eight", "8");
    (* Files *)
    ("a", "a"); ("ay", "a");
    ("be", "b"); ("bee", "b");
    ("see", "c"); ("sea", "c");
    ("dee", "d");
    ("e", "e"); ("ee", "e");
    ("f", "f"); ("ef", "f");
    ("g", "g"); ("gee", "g");
    ("h", "h"); ("aitch", "h");
    (* Pieces *)
    ("night", "knight"); ("nite", "knight");
    ("king", "king"); ("k", "king");
    ("queen", "queen"); ("q", "queen");
    ("rook", "rook"); ("castle", "rook"); ("tower", "rook");
    ("bishop", "bishop"); ("b", "bishop");
    ("pawn", "pawn"); ("p", "pawn"); ("pond", "pawn");
    (* Actions *)
    ("takes", "takes"); ("take", "takes"); ("captures", "takes");
    ("capture", "takes");
    ("x", "takes"); ("cross", "takes"); ("times", "takes");
    ("check", "check"); ("checkmate", "checkmate"); ("mate", "checkmate");
    ("castles", "castle");
    ("short", "short"); ("king side", "short"); ("kingside", "short");
    ("long", "long"); ("queen side", "long"); ("queenside", "long");
    (* Common phrases *)
    ("move", ""); ("moves", ""); ("go", ""); ("goes", "");
    ("the", ""); ("an", "");
    ("piece", ""); ("pieces", "") ].

Definition pieceSymbols : table :=
  [ ("king", "K"); ("queen", "Q"); ("rook", "R"); ("bishop", "B");
    ("knight", "N"); ("pawn", "") ].

(** The properties every object literal inherits from [Object.prototype]
    whose names can be a lower-cased token, with the text that
    [Array.prototype.join] gives for their values (a native function and a
    plain object). *)
Definition inherited (key : string) : option string :=
  if String.eqb key "constructor" then Some "function Object() { [native code] }"
  else if String.eqb key "__proto__" then Some "[object Object]"
  else None.

(** [t[key]]: own properties first, then the prototype. *)
Definition lookup (t : table) (key : string) : option string :=
  match own t key with
  | Some v => Some v
  | None => inherited key
  end.

(** [a || b] where [a : string | undefined] and [b : string]. *)
Definition orElse (a : option string) (b : string) : string :=
  match a with
  | Some v => if JS.truthy a then v else b
  | None => b
  end.

(** ** MoveParser.cleanTranscript *)

(** [words.map(word => this.homophones[word] || word)] *)
Definition substitute (word : string) : string :=
  orElse (lookup homophones word) word.

(** [.filter(word => word !== '')] *)
Definition nonEmpty (word : string) : bool := negb (String.eqb word "").

Definition cleanedWords (text : string) : list string :=
  let cleaned := JS.replacePunctuation (JS.toLowerCase text) in
  let words := JS.splitSpaces cleaned in
  filter nonEmpty (map substitute words).

Definition cleanTranscript (text : string) : string :=
  JS.join (cleanedWords text).

(** ** Data model *)

Inductive Color : Type := white | black.

Record ParseContext : Type := {
  currentFEN : string;
  legalMoves : list string;
  lastMove : option string;
  playerColor : Color
}.

Record ChessMoveResult : Type := {
  san : option string;
  confidence : Q;
  originalText : string;
  error : option string
}.

(** A parsing strategy: [(cleaned, context?) => ChessMoveResult]. *)
Definition strategy := string -> option ParseContext -> ChessMoveResult.

(** ** MoveParser.parseStandardMove *)

Definition checkSuffix : regex :=
  Opt (plus space >> Group 3 (alts ["check"; "checkmate"]))%re.

(** The three patterns, in source order; the comments give the source
    pattern with blanks between its parts. *)
Definition patterns : list regex :=
  [ (* ^ (knight|queen|king|rook|bishop|pawn)? \s* (?:2|takes) \s* ([a-h][1-8]) (?:\s+(check|checkmate))? $ *)
    (Bos >> Opt (Group 1 (alts ["knight"; "queen"; "king"; "rook"; "bishop"; "pawn"]))
         >> Star space >> alts ["2"; "takes"] >> Star space
         >> Group 2 square >> checkSuffix >> Eos)%re;
    (* ^ ([a-h]) (?:takes\s* )? ([a-h][1-8]) (?:\s+(check|checkmate))? $ *)
    (Bos >> Group 1 file_a_h >> Opt (Lit "takes" >> Star space)
         >> Group 2 square >> checkSuffix >> Eos)%re;
    (* ^ ([nqkrb])? (?:takes\s*|x\s* )? ([a-h][1-8]) (?:\s+(check|checkmate))? $ *)
    (Bos >> Opt (Group 1 (oneOf "nqkrb"))
         >> Opt (Alt (Lit "takes" >> Star space) (Lit "x" >> Star space))
         >> Group 2 square >> checkSuffix >> Eos)%re ].

(** The body of the [if (match)] branch: the SAN assembled from the groups
    and the result built around it. *)
Definition standardResult (cleaned : string) (context : option ParseContext)
    (m : captures) : ChessMoveResult :=
  let piece :=
    match group 1 m with
    | Some g =>
        if JS.truthy (Some g)
        then orElse (lookup pieceSymbols g) (JS.toUpperCase g)
        else ""
    | None => ""
    end in
  (* a group that took part in the match is a string; [match[2]] always did *)
  let destination := match group 2 m with Some d => d | None => "undefined" end in
  let check :=
    match group 3 m with
    | Some "check" => "+"
    | Some "checkmate" => "#"
    | _ => ""
    end in
  let san := (piece ++ destination ++ check)%string in
  match context with
  | Some ctx =>
      if JS.arrayIncludes (legalMoves ctx) san
      then {| san := Some san; confidence := 0.9; originalText := cleaned; error := None |}
      else {| san := Some san; confidence := 0.7; originalText := cleaned; error := None |}
  | None =>
      {| san := Some san; confidence := 0.7; originalText := cleaned; error := None |}
  end.

(** [for (const pattern of patterns)]: the first pattern that matches
    returns. *)
Fixpoint firstMatch (ps : list regex) (cleaned : string) : option captures :=
  match ps with
  | [] => None
  | p :: ps' =>
      match exec p cleaned with
      | Some m => Some m
      | None => firstMatch ps' cleaned
      end
  end.

Definition parseStandardMove : strategy := fun cleaned context =>
  match firstMatch patterns cleaned with
  | Some m => standardResult cleaned context m
  | None =>
      {| san := None; confidence := 0; originalText := cleaned; error := None |}
  end.

(** ** MoveParser.parseCastling *)

Definition parseCastling : strategy := fun cleaned context =>
  if JS.includes cleaned "castle" then
    if JS.includes cleaned "short" || JS.includes cleaned "king side" then
      {| san := Some "O-O"; confidence := 0.95; originalText := cleaned; error := None |}
    else if JS.includes cleaned "long" || JS.includes cleaned "queen side" then
      {| san := Some "O-O-O"; confidence := 0.95; originalText := cleaned; error := None |}
    else
      (* Default to kingside castle *)
      {| san := Some "O-O"; confidence := 0.8; originalText := cleaned; error := None |}
  else
    {| san := None; confidence := 0; originalText := cleaned; error := None |}.

(** ** MoveParser.parseWithContext *)

(** [cleaned.match(/([a-h][1-8])/)], then [squareMatch[1]]. *)
Definition squareMatch (cleaned : string) : option string :=
  match exec (Group 1 square) cleaned with
  | Some m => group 1 m
  | None => None
  end.

(** [legalMoves.filter(move => move.includes(destination) && !move.includes('O'))] *)
Definition candidateMoves (destination : string) (moves : list string) : list string :=
  filter (fun move => JS.includes move destination && negb (JS.includes move "O")) moves.

(** [move.match(/^[NQKRB]/)] as a condition. *)
Definition hasPieceLetter (move : string) : bool :=
  match exec (Bos >> oneOf "NQKRB")%re move with
  | Some _ => true
  | None => false
  end.

(** The names tried by the disambiguation loop, in source order. *)
Definition disambiguationPieces : list string :=
  ["knight"; "queen"; "king"; "rook"; "bishop"].

(** The [for (const piece of ...)] loop over candidates that share the
    destination; [None] when the loop runs to its end. *)
Fixpoint disambiguate (pieces : list string) (cleaned : string)
    (candidates : list string) : option string :=
  match pieces with
  | [] => None
  | piece :: rest =>
      if JS.includes cleaned piece then
        (* an own property for every name in the list *)
        let symbol := match lookup pieceSymbols piece with Some v => v | None => "undefined" end in
        let found :=
          find (fun move => JS.startsWith move symbol
                            || (String.eqb symbol "" && negb (hasPieceLetter move)))
               candidates in
        if JS.truthy found then found else disambiguate rest cleaned candidates
      else disambiguate rest cleaned candidates
  end.

Definition parseWithContext : strategy := fun cleaned context =>
  let nothing :=
    {| san := None; confidence := 0; originalText := cleaned; error := None |} in
  match context with
  | None => nothing
  | Some ctx =>
      match squareMatch cleaned with
      | Some destination =>
          let candidates := candidateMoves destination (legalMoves ctx) in
          match candidates with
          | [only] =>
              {| san := Some only; confidence := 0.8; originalText := cleaned; error := None |}
          | _ :: _ :: _ =>
              match disambiguate disambiguationPieces cleaned candidates with
              | Some found =>
                  {| san := Some found; confidence := 0.85; originalText := cleaned; error := None |}
              | None => nothing
              end
          | [] => nothing
          end
      | None => nothing
      end
  end.

(** ** MoveParser.parseMove *)

Definition strategies : list strategy :=
  [parseStandardMove; parseCastling; parseWithContext].

(** [for (const strategy of strategies)]: the first result whose [san] is
    truthy is returned. *)
Fixpoint firstSuccess (ss : list strategy) (cleaned : string)
    (context : option ParseContext) : option ChessMoveResult :=
  match ss with
  | [] => None
  | strat :: ss' =>
      let result := strat cleaned context in
      if JS.truthy (san result) then Some result
      else firstSuccess ss' cleaned context
  end.

Definition couldNotParse (originalText : string) : ChessMoveResult :=
  {| san := None; confidence := 0; originalText := originalText;
     error := Some "Could not parse chess move" |}.

Definition parseMove (transcript : string) (context : option ParseContext)
    : ChessMoveResult :=
  let originalText := transcript in
  let cleaned := cleanTranscript transcript in
  match firstSuccess strategies cleaned context with
  | Some result => result
  | None => couldNotParse originalText
  end.

(** ** TTSConfirmation.formatMoveConfirmation *)

Module TTS.

(** The two local variables the function updates while it walks the SAN
    text. *)
Record walk : Type := { result : string; i : nat }.

Definition emit (text : string) (w : walk) : walk :=
  {| result := (result w ++ text)%string; i := i w |}.

Definition advance (n : nat) (w : walk) : walk :=
  {| result := result w; i := i w + n |}.

(** [c && letters.includes(c)] for [c = san[i]]. *)
Definition isOneOf (letters : string) (c : option string) : bool :=
  match c with
  | Some ch => JS.truthy c && JS.includes letters ch
  | None => false
  end.

(** [c === 'x'] and the like. *)
Definition equals (c : option string) (ch : string) : bool :=
  match c with
  | Some v => String.eqb v ch
  | None => false
  end.

(** A value inside a template literal or appended to a string. *)
Definition show (v : option string) : string :=
  match v with
  | Some text => text
  | None => "undefined"
  end.

Definition pieceNames : table :=
  [ ("N", "Knight"); ("Q", "Queen"); ("K", "King"); ("R", "Rook");
    ("B", "Bishop") ].

Definition promotionNames : table :=
  [ ("N", "knight"); ("Q", "queen"); ("R", "rook"); ("B", "bishop") ].

(** Check for piece (if not present, it's a pawn) *)
Definition pieceStep (san : string) (w : walk) : walk :=
  if isOneOf "NQKRB" (JS.charAt san 0)
  then advance 1 (emit (show (lookup pieceNames (show (JS.charAt san 0)))) w)
  else emit "Pawn" w.

(** Check for disambiguation (file or rank) *)
Definition disambiguationStep (san : string) (w : walk) : walk :=
  let c := JS.charAt san (i w) in
  if isOneOf "abcdefgh" c
  then advance 1 (emit (" on " ++ show c ++ "-file")%string w)
  else if isOneOf "12345678" c
  then advance 1 (emit (" on rank " ++ show c)%string w)
  else w.

(** Check for capture *)
Definition captureStep (san : string) (w : walk) : walk :=
  if equals (JS.charAt san (i w)) "x"
  then advance 1 (emit " takes" w)
  else emit " to" w.

(** Destination square *)
Definition destinationStep (san : string) (w : walk) : walk :=
  let c := JS.charAt san (i w) in
  let d := JS.charAt san (i w + 1) in
  if JS.truthy c && JS.truthy d
  then advance 2 (emit (" " ++ show c ++ "-" ++ show d)%string w)
  else w.

(** Check for promotion *)
Definition promotionStep (san : string) (w : walk) : walk :=
  if equals (JS.charAt san (i w)) "="
  then
    let w' := advance 1 w in
    let c := JS.charAt san (i w') in
    if JS.truthy c
    then advance 1
           (emit (", promotes to " ++ show (lookup promotionNames (show c)))%string w')
    else w'
  else w.

(** Check for check or checkmate *)
Definition checkStep (san : string) (w : walk) : walk :=
  let c := JS.charAt san (i w) in
  if equals c "+" then emit ", check" w
  else if equals c "#" then emit ", checkmate" w
  else w.

Definition formatMoveConfirmation (san : string) : string :=
  if String.eqb san "O-O" then "Short castle confirmed"
  else if String.eqb san "O-O-O" then "Long castle confirmed"
  else
    let w := {| result := ""; i := 0 |} in
    let w := pieceStep san w in
    let w := disambiguationStep san w in
    let w := captureStep san w in
    let w := destinationStep san w in
    let w := promotionStep san w in
    let w := checkStep san w in
    (result w ++ " confirmed")%string.

End TTS.

(** ** Vocabulary of the statements *)

(** A context for white in the starting position with the given legal
    moves; the parser only reads [legalMoves]. *)
Definition ctxOf (moves : list string) : ParseContext :=
  {| currentFEN := "rnbqkbnr/pppppppp/8/8/8/8/PPPPPPPP/RNBQKBNR w KQkq - 0 1";
     legalMoves := moves; lastMove := None; playerColor := white |}.

(** An object literal [{san, confidence, originalText, error}]. *)
Definition resultOf (s : option string) (c : Q) (text : string)
    (e : option string) : ChessMoveResult :=
  {| san := s; confidence := c; originalText := text; error := e |}.

(** The failure signature of a result: no move and confidence zero, or a
    move and a positive confidence. *)
Definition signed (r : ChessMoveResult) : Prop :=
  match san r with
  | Some _ => (0 < confidence r)%Q
  | None => (confidence r == 0)%Q
  end.

(** What every strategy guarantees about its result, whatever the input. *)
Definition sound (strat : strategy) : Prop :=
  forall cleaned context,
    signed (strat cleaned context)
    /\ originalText (strat cleaned context) = cleaned.

(** The legal moves of the starting position, as the parser's tests list
    them. *)
Definition startMoves : list string :=
  ["e4"; "e3"; "Nf3"; "Nc3"; "d4"; "d3"; "Nh3"; "Na3"; "f4"; "f3";
   "g4"; "g3"; "h4"; "h3"; "a4"; "a3"; "b4"; "b3"; "c4"; "c3"].

(** Every code unit of [s] satisfies [p]. *)
Fixpoint allChars (p : ascii -> bool) (s : string) : bool :=
  match s with
  | EmptyString => true
  | String a s' => p a && allChars p s'
  end.

(** The code units of a lower-case word token: [[a-z0-9_]]. *)
Definition plainChar (a : ascii) : bool :=
  JS.between 97 122 a || JS.between 48 57 a || (JS.code a =? 95).

(** The separator that [join] writes between tokens. *)
Definition blank (a : ascii) : bool := Ascii.eqb a " ".

(** A code unit outside [\s]. *)
Definition notSpace (a : ascii) : bool := negb (JS.isSpace a).

(** Facts about single code units, checked on all 256 of them. *)
Ltac each_ascii a :=
  destruct a as [[|] [|] [|] [|] [|] [|] [|] [|]];
  intros H; try reflexivity; vm_compute in H; discriminate H.

(** The text does not begin with white space. *)
Definition startsClean (s : string) : Prop :=
  match s with
  | String b _ => JS.isSpace b = false
  | EmptyString => True
  end.

(** A token as [cleanedWords] keeps them: not empty, made of plain code
    units. *)
Definition token (w : string) : bool := nonEmpty w && allChars plainChar w.

(** A canonical token: a plain word that the homophone lookup leaves as it
    is. *)
Definition canonical (word : string) : bool :=
  allChars plainChar word && String.eqb (substitute word) word.

(** ** TTSConfirmation: voice selection and speaking

    The object keeps the selected voice and the enabled flag.  What it does
    to [window.speechSynthesis] is recorded as the list of calls it makes,
    in order; [console.log] is left out. *)

Module Voice.
Record t : Type := { name : string; lang : string }.
End Voice.

Module Utterance.
(** [new SpeechSynthesisUtterance(text)] with the properties the code
    assigns; [voice] stays [null] unless the code sets it. *)
Record t : Type := {
  text : string;
  voice : option Voice.t;
  rate : Q;
  pitch : Q;
  volume : Q
}.
End Utterance.

Module TTSConfirmation.

Record state : Type := { voice : option Voice.t; enabled : bool }.

(** A call on [this.synth]. *)
Inductive SynthCall : Type :=
| Cancel
| Speak (utterance : Utterance.t).

Definition preferredNames : list string :=
  ["Matthew"; "Alex"; "Daniel"; "Fred"; "Karen"; "Moira"].

(** [voices.filter(voice => voice.lang.startsWith('en'))] *)
Definition isEnglish (v : Voice.t) : bool := JS.startsWith (Voice.lang v) "en".

Definition englishVoices (voices : list Voice.t) : list Voice.t :=
  filter isEnglish voices.

(** The [for (const name of preferredNames)] loop: the first name for which
    an English voice is found decides. *)
Fixpoint firstPreferred (names : list string) (english : list Voice.t)
    : option Voice.t :=
  match names with
  | [] => None
  | n :: rest =>
      match find (fun v => JS.includes (Voice.name v) n) english with
      | Some v => Some v
      | None => firstPreferred rest english
      end
  end.

(** The value [selectVoice] stores in [this.voice], for the voices that
    [getVoices()] returns. *)
Definition selectVoice (voices : list Voice.t) : option Voice.t :=
  match firstPreferred preferredNames (englishVoices voices) with
  | Some v => Some v
  | None =>
      (* englishVoices[0] || voices[0] || null *)
      match englishVoices voices with
      | v :: _ => Some v
      | [] => match voices with
              | v :: _ => Some v
              | [] => None
              end
      end
  end.

(** The constructor with [initializeVoice]: with no voice loaded yet the
    selection waits for the [voiceschanged] event. *)
Definition create (voices : list Voice.t) : state :=
  {| voice := match voices with
              | [] => None
              | _ :: _ => selectVoice voices
              end;
     enabled := true |}.

(** The [voiceschanged] listener. *)
Definition onVoicesChanged (voices : list Voice.t) (this : state) : state :=
  {| voice := selectVoice voices; enabled := enabled this |}.

Definition speak (this : state) (text : string) : list SynthCall :=
  [ Cancel;
    Speak {| Utterance.text := text; Utterance.voice := voice this;
             Utterance.rate := 0.9; Utterance.pitch := 1.0;
             Utterance.volume := 0.8 |} ].

Definition confirmMove (this : state) (san : string) : list SynthCall :=
  if negb (enabled this) then []
  else speak this (TTS.formatMoveConfirmation san).

Definition announceCheck (this : state) : list SynthCall :=
  if negb (enabled this) then [] else speak this "Check!".

Definition colorName (c : Color) : string :=
  match c with white => "white" | black => "black" end.

Definition announceCheckmate (this : state) (winner : Color) : list SynthCall :=
  if negb (enabled this) then []
  else speak this ("Checkmate! " ++ colorName winner ++ " wins!")%string.

Definition announceStalemate (this : state) : list SynthCall :=
  if negb (enabled this) then []
  else speak this "Stalemate! The game is a draw.".

Definition announceError (this : state) (message : string) : list SynthCall :=
  if negb (enabled this) then []
  else speak this ("Error: " ++ message)%string.

Definition announceIllegalMove (this : state) : list SynthCall :=
  if negb (enabled this) then [] else speak this "That move is not legal.".

Definition setEnabled (this : state) (flag : bool) : state :=
  {| voice := voice this; enabled := flag |}.

(** The public methods as a caller can invoke them, one after another. *)
Inductive call : Type :=
| ConfirmMove (san : string)
| AnnounceCheck
| AnnounceCheckmate (winner : Color)
| AnnounceStalemate
| AnnounceError (message : string)
| AnnounceIllegalMove
| SetEnabled (flag : bool).

Definition step (this : state) (c : call) : state * list SynthCall :=
  match c with
  | ConfirmMove san => (this, confirmMove this san)
  | AnnounceCheck => (this, announceCheck this)
  | AnnounceCheckmate winner => (this, announceCheckmate this winner)
  | AnnounceStalemate => (this, announceStalemate this)
  | AnnounceError message => (this, announceError this message)
  | AnnounceIllegalMove => (this, announceIllegalMove this)
  | SetEnabled flag => (setEnabled this flag, [])
  end.

Fixpoint runCalls (this : state) (cs : list call) : state * list SynthCall :=
  match cs with
  | [] => (this, [])
  | c :: rest =>
      let (this', out) := step this c in
      let (final, out') := runCalls this' rest in
      (final, out ++ out')
  end.

End TTSConfirmation.

(** ** VoiceBridge: from a transcript to a move on the bus

    [processTranscript] with the helpers it calls, its [try]/[catch] and
    [handleVoiceError].  The calls that the bridge and its speech object
    make on the voice UI, on the bus and on [speechSynthesis] are recorded
    in order.  An emit runs the callbacks registered for the event: the
    bridge's own [move] listener is modelled, a callback of another object
    only returns or throws.  Any recorded call can throw; what is recorded
    then is the call, and control passes to the [catch].  [console.error]
    is left out. *)

Module GameState.
(** The fields that [getCurrentParseContext] reads from the last [state]
    event; [legalMoves] and [lastMove] can be missing. *)
Record t : Type := {
  fen : string;
  legalMoves : option (list string);
  lastMove : option string;
  turn : Color
}.
End GameState.

Module VoiceBridge.

Record state : Type := {
  currentGameState : option GameState.t;
  ttsConfirmation : TTSConfirmation.state
}.

Inductive payload : Type :=
| NoData
| MoveData (san source originalTranscript : string) (confidence : Q)
| ErrorData (error : string).

Inductive effect : Type :=
| ShowParseResult (move : option string)   (* voiceUI.showParseResult *)
| ShowError (message : string)             (* voiceUI.showError *)
| Emit (event : string) (data : payload)   (* gameBus.emit *)
| Synth (c : TTSConfirmation.SynthCall).   (* this.synth.cancel / speak *)

(** How a call ends: it returns, or it throws an [Error] with a message. *)
Inductive outcome : Type :=
| Returns
| Throws (message : string).

(** A callback on the bus. *)
Inductive listener : Type :=
| OwnMove                                  (* registered by setupEventHandlers *)
| Other (behaviour : payload -> outcome).  (* registered by another object *)

Record environment : Type := {
  (** [this.listeners[event]] of the bus, in registration order *)
  listeners : string -> list listener;
  (** how a call on the voice UI or on [speechSynthesis] ends *)
  ends : effect -> outcome
}.

(** A computation that records calls and either completes or is left by an
    exception. *)
Inductive completion (A : Type) : Type :=
| Completed (a : A)
| Raised (message : string).
Arguments Completed {A} a.
Arguments Raised {A} message.

Definition action (A : Type) : Type := (list effect * completion A)%type.

Definition ret {A : Type} (a : A) : action A := ([], Completed a).

Definition bind {A B : Type} (m : action A) (f : A -> action B) : action B :=
  match m with
  | (trace, Completed a) => let (trace', r) := f a in (trace ++ trace', r)
  | (trace, Raised message) => (trace, Raised message)
  end.

Definition andThen {A B : Type} (m : action A) (n : action B) : action B :=
  bind m (fun _ => n).

Definition ended (o : outcome) : completion unit :=
  match o with
  | Returns => Completed tt
  | Throws message => Raised message
  end.

(** One call on the voice UI or on [speechSynthesis]. *)
Definition call (env : environment) (e : effect) : action unit :=
  ([e], ended (ends env e)).

(** Calls made one after the other. *)
Fixpoint perform (env : environment) (es : list effect) : action unit :=
  match es with
  | [] => ret tt
  | e :: rest => andThen (call env e) (perform env rest)
  end.

(** The [move] listener that [setupEventHandlers] registers: only moves
    whose source is the voice are confirmed. *)
Definition onMove (env : environment) (this : state) (data : payload)
    : action unit :=
  match data with
  | MoveData move source _ _ =>
      if negb (String.eqb source "voice") then ret tt
      else perform env
             (map Synth (TTSConfirmation.confirmMove (ttsConfirmation this) move))
  | _ => ret tt
  end.

Definition invoke (env : environment) (this : state) (l : listener)
    (data : payload) : action unit :=
  match l with
  | OwnMove => onMove env this data
  | Other behaviour => ([], ended (behaviour data))
  end.

(** [this.listeners[event].forEach(callback => callback(data))] *)
Fixpoint forEach (env : environment) (this : state) (ls : list listener)
    (data : payload) : action unit :=
  match ls with
  | [] => ret tt
  | l :: rest => andThen (invoke env this l data) (forEach env this rest data)
  end.

(** [this.gameBus.emit(event, data)] *)
Definition emit (env : environment) (this : state) (event : string)
    (data : payload) : action unit :=
  andThen ([Emit event data], Completed tt)
          (forEach env this (listeners env event) data).

(** [try { body } catch (error) { handler(error) }] *)
Definition tryCatch (body : action unit) (handler : string -> action unit)
    : action unit :=
  match body with
  | (trace, Completed a) => (trace, Completed a)
  | (trace, Raised message) =>
      let (trace', r) := handler message in (trace ++ trace', r)
  end.

Definition getCurrentParseContext (this : state) : ParseContext :=
  match currentGameState this with
  | None =>
      {| currentFEN := "rnbqkbnr/pppppppp/8/8/8/8/PPPPPPPP/RNBQKBNR w KQkq - 0 1";
         legalMoves := [];
         lastMove := None;
         playerColor := white |}
  | Some g =>
      {| currentFEN := GameState.fen g;
         legalMoves := match GameState.legalMoves g with
                       | Some moves => moves
                       | None => []
                       end;
         lastMove := GameState.lastMove g;
         playerColor := GameState.turn g |}
  end.

(** [return !!san] *)
Definition isValidMove (san : string) : bool := JS.truthy (Some san).

Definition handleVoiceError (env : environment) (this : state)
    (message : string) : action unit :=
  andThen (emit env this "voice:error" (ErrorData message))
          (call env (ShowError message)).

Definition processTranscript (env : environment) (this : state)
    (transcript : string) : action unit :=
  tryCatch
    (let context := getCurrentParseContext this in
     let result := parseMove transcript (Some context) in
     let notUnderstood :=
       andThen (call env (ShowParseResult None))
         (andThen
            (perform env
               (map Synth (TTSConfirmation.announceError (ttsConfirmation this)
                             "Could not understand move")))
            (emit env this "voice:error"
               (ErrorData (orElse (error result) "Parse failed")))) in
     match san result with
     | Some move =>
         if JS.truthy (Some move) then
           andThen (call env (ShowParseResult (Some move)))
             (if isValidMove move then
                andThen
                  (emit env this "move"
                     (MoveData move "voice" transcript (confidence result)))
                  (emit env this "voice:complete" NoData)
              else
                andThen
                  (perform env
                     (map Synth (TTSConfirmation.announceIllegalMove
                                   (ttsConfirmation this))))
                  (emit env this "voice:error" (ErrorData "Illegal move")))
         else notUnderstood
     | None => notUnderstood
     end)
    (handleVoiceError env this).

End VoiceBridge.

(** ** Vocabulary of the further properties *)

(** The capturing groups that occur in a pattern. *)
Fixpoint groupsOf (r : regex) : list nat :=
  match r with
  | Chr _ | Lit _ | Bos | Eos => []
  | Seq r1 r2 | Alt r1 r2 => groupsOf r1 ++ groupsOf r2
  | Opt r1 | Star r1 => groupsOf r1
  | Group n r1 => n :: groupsOf r1
  end.

(** The loop of [run] on [Star r1], with the matcher of [r1] as an
    argument. *)
Definition starLoop
    (body : nat -> string -> captures -> cont -> option captures) (k : cont) :=
  fix loop (fuel : nat) (i : nat) (s : string) (c : captures) :=
    match fuel with
    | O => k i s c
    | S fuel' =>
        match body i s c
                (fun i' s' c' =>
                   if String.length s' <? String.length s
                   then loop fuel' i' s' c' else None) with
        | Some m => Some m
        | None => k i s c
        end
    end.

(** What reaches the continuation: the captures so far, extended by groups
    of the pattern. *)
Definition extends (r : regex) (i : nat) (s : string) (c : captures)
    (k : cont) (m : captures) : Prop :=
  exists i' s' new,
    k i' s' (new ++ c) = Some m
    /\ Forall (fun kv : nat * string => In (fst kv) (groupsOf r)) new.

(** The last continuation of [execFrom]. *)
Definition done : cont := fun _ _ c => Some c.

(** A pattern whose group 2 is the destination square, with no other
    group 2 after it. *)
Inductive capturesSquare : regex -> Prop :=
| square_here (rest : regex) :
    ~ In 2 (groupsOf rest) -> capturesSquare (Seq (Group 2 square) rest)
| square_later (before rest : regex) :
    capturesSquare rest -> capturesSquare (Seq before rest).

(** A file letter followed by a rank digit. *)
Definition isSquare (d : string) : Prop :=
  exists a b, d = String a (String b "")
              /\ JS.between 97 104 a = true /\ JS.between 49 56 b = true.

(** The confidence values the parser can return. *)
Definition confidenceTable : list Q := [0; 0.7; 0.8; 0.85; 0.9; 0.95]%Q.

(** The piece prefix that [standardResult] computes from [match[1]]. *)
Definition pieceOf (m : captures) : string :=
  match group 1 m with
  | Some g =>
      if JS.truthy (Some g)
      then orElse (lookup pieceSymbols g) (JS.toUpperCase g)
      else ""
  | None => ""
  end.

(** What follows the destination in a text that a standard pattern
    matches, and the marker appended for it: nothing, or white space and
    one of the two check words. *)
Definition spokenMark (tail mark : string) : Prop :=
  (tail = "" /\ mark = "")
  \/ (exists ws, ws <> "" /\ allChars JS.isSpace ws = true
                  /\ tail = (ws ++ "check")%string /\ mark = "+")
  \/ (exists ws, ws <> "" /\ allChars JS.isSpace ws = true
                  /\ tail = (ws ++ "checkmate")%string /\ mark = "#").

(** As [extends], with the rest of the input that the continuation
    receives: it is the input less what the pattern consumed. *)
Definition reaches (r : regex) (i : nat) (s : string) (c : captures)
    (k : cont) (m : captures) : Prop :=
  exists i' s' new consumed,
    k i' s' (new ++ c) = Some m
    /\ Forall (fun kv : nat * string => In (fst kv) (groupsOf r)) new
    /\ s = (consumed ++ s')%string.

(** A pattern that ends with the destination square as group 2, the
    optional check word as group 3 and the end of the text. *)
Inductive endsWithSquare : regex -> Prop :=
| ends_here : endsWithSquare (Seq (Group 2 square) (Seq checkSuffix Eos))
| ends_later (before rest : regex) :
    ~ In 3 (groupsOf before) -> endsWithSquare rest ->
    endsWithSquare (Seq before rest).

(** The marker that [parseStandardMove] appends for [match[3]]. *)
Definition checkMarks : list string := [""; "+"; "#"].

(** No code unit of the text is a word character. *)
Definition noWordChar (text : string) : bool :=
  allChars (fun a => negb (JS.isWordChar a)) text.

(** Closing a goal on two different confidence literals. *)
Ltac qabsurd H := vm_compute in H; discriminate H.

(** The utterance that [speak] builds for a text. *)
Definition utteranceFor (v : option Voice.t) (text : string) : Utterance.t :=
  {| Utterance.text := text; Utterance.voice := v;
     Utterance.rate := 0.9; Utterance.pitch := 1.0; Utterance.volume := 0.8 |}.

(** The files of the board, as the formatter spells them. *)
Definition fileLetters : list ascii :=
  ["a"; "b"; "c"; "d"; "e"; "f"; "g"; "h"]%char.

Definition rankDigits : list ascii :=
  ["1"; "2"; "3"; "4"; "5"; "6"; "7"; "8"]%char.

(** The check suffix of a SAN text and the words spoken for it. *)
Definition checkPhrases : list (string * string) :=
  [("", ""); ("+", ", check"); ("#", ", checkmate")].

(** A one-unit string. *)
Definition unit (a : ascii) : string := String a "".

(** The piece letters of a SAN text with the names spoken for them; no
    letter stands for the pawn. *)
Definition spokenPieces : list (string * string) :=
  ("", "Pawn") :: TTS.pieceNames.

(** Splitting a goal over the members of a short list. *)
Ltac each_member H :=
  repeat (destruct H as [H|H]; [inversion H; subst; clear H|]); try contradiction.

Ltac each_unit H :=
  repeat (destruct H as [H|H]; [subst|]); try contradiction.

(** No call throws: every call on the voice UI and on [speechSynthesis]
    returns, and so does every callback of another object on the bus. *)
Definition quiet (env : VoiceBridge.environment) : Prop :=
  (forall e, VoiceBridge.ends env e = VoiceBridge.Returns)
  /\ forall event,
       Forall (fun l => match l with
                        | VoiceBridge.OwnMove => True
                        | VoiceBridge.Other behaviour =>
                            forall data, behaviour data = VoiceBridge.Returns
                        end)
              (VoiceBridge.listeners env event).

(** What the bridge's own listeners among [ls] say for a voice move. *)
Definition confirmations (this : VoiceBridge.state) (move : string)
    (ls : list VoiceBridge.listener) : list VoiceBridge.effect :=
  flat_map (fun l => match l with
                     | VoiceBridge.OwnMove =>
                         map VoiceBridge.Synth
                           (TTSConfirmation.confirmMove
                              (VoiceBridge.ttsConfirmation this) move)
                     | VoiceBridge.Other _ => []
                     end) ls.

(** What the bridge's own listeners among [ls] say for an event's data:
    only a move whose source is the voice is confirmed. *)
Definition heard (this : VoiceBridge.state) (data : VoiceBridge.payload)
    (ls : list VoiceBridge.listener) : list VoiceBridge.effect :=
  match data with
  | VoiceBridge.MoveData move source _ _ =>
      if String.eqb source "voice" then confirmations this move ls else []
  | _ => []
  end.

(** [processTranscript] without its two branches that are never taken. *)
Definition liveBranches (env : VoiceBridge.environment)
    (this : VoiceBridge.state) (transcript : string)
    : VoiceBridge.action Datatypes.unit :=
  let result :=
    parseMove transcript (Some (VoiceBridge.getCurrentParseContext this)) in
  match san result with
  | Some move =>
      VoiceBridge.andThen
        (VoiceBridge.call env (VoiceBridge.ShowParseResult (Some move)))
        (VoiceBridge.andThen
           (VoiceBridge.emit env this "move"
              (VoiceBridge.MoveData move "voice" transcript (confidence result)))
           (VoiceBridge.emit env this "voice:complete" VoiceBridge.NoData))
  | None =>
      VoiceBridge.andThen
        (VoiceBridge.call env (VoiceBridge.ShowParseResult None))
        (VoiceBridge.andThen
           (VoiceBridge.perform env
              (map VoiceBridge.Synth
                 (TTSConfirmation.announceError
                    (VoiceBridge.ttsConfirmation this)
                    "Could not understand move")))
           (VoiceBridge.emit env this "voice:error"
              (VoiceBridge.ErrorData "Could not parse chess move")))
  end.

(** * Verified properties *)

(** ** The embedding on the repository's tests

    Expectations of the repository's test suites that the code meets,
    evaluated on the embedding. *)

Example cleanTranscript_tests :
  cleanTranscript "night to f three" = "knight 2 f 3"
  /\ cleanTranscript "won two three" = "1 2 3"
  /\ cleanTranscript "for ate" = "4 8"
  /\ cleanTranscript "Knight to F3!" = "knight 2 f3"
  /\ cleanTranscript "" = "".
Proof. repeat split; reflexivity. Qed.

Example parseMove_tests :
  let context := Some (ctxOf startMoves) in
  san (parseMove "knight to f3" context) = Some "Nf3"
  /\ san (parseMove "e4" context) = Some "e4"
  /\ san (parseMove "  KNIGHT    TO    F3  " context) = Some "Nf3"
  /\ san (parseMove "please move the knight piece to the f3 square on the board"
                    context) = Some "Nf3"
  /\ san (parseMove "" context) = None
  /\ san (parseMove "queen to h5 check" (Some (ctxOf ["Qh5+"; "Qh4+"; "Bb5+"])))
     = Some "Qh5+"
  /\ parseMove "knight f3" (Some (ctxOf ["Nf3"; "Bf3"; "e4"]))
     = resultOf (Some "Nf3") 0.85 "knight f3" None.
Proof. repeat split; vm_compute; reflexivity. Qed.

Example formatMoveConfirmation_tests :
  TTS.formatMoveConfirmation "O-O" = "Short castle confirmed"
  /\ TTS.formatMoveConfirmation "O-O-O" = "Long castle confirmed"
  /\ TTS.formatMoveConfirmation "Nxe5" = "Knight takes e-5 confirmed"
  /\ TTS.formatMoveConfirmation "Nbd7" = "Knight on b-file to d-7 confirmed".
Proof. repeat split; vm_compute; reflexivity. Qed.

(** ** The strategies and the result they return *)

Lemma parseStandardMove_sound : sound parseStandardMove.
Proof.
  intros cleaned context. unfold parseStandardMove.
  destruct (firstMatch patterns cleaned) as [m|].
  - unfold standardResult. destruct context as [ctx|].
    + destruct (JS.arrayIncludes _ _); split; reflexivity.
    + split; reflexivity.
  - split; reflexivity.
Qed.

Lemma parseCastling_sound : sound parseCastling.
Proof.
  intros cleaned context. unfold parseCastling.
  destruct (JS.includes cleaned "castle"); [|split; reflexivity].
  destruct (_ || _); [split; reflexivity|].
  destruct (_ || _); split; reflexivity.
Qed.

Lemma parseWithContext_sound : sound parseWithContext.
Proof.
  intros cleaned [ctx|]; unfold parseWithContext; [|split; reflexivity].
  destruct (squareMatch cleaned) as [d|]; [|split; reflexivity].
  destruct (candidateMoves d (legalMoves ctx)) as [|m [|m' ms]].
  - split; reflexivity.
  - split; reflexivity.
  - destruct (disambiguate _ _ _); split; reflexivity.
Qed.

Create HintDb parser.
#[local] Hint Resolve parseStandardMove_sound parseCastling_sound
  parseWithContext_sound : parser.
#[local] Hint Constructors Forall : parser.

Lemma strategies_sound : Forall sound strategies.
Proof.
  unfold strategies. auto with parser.
Qed.

Section StrategyLoop.

Variable cleaned : string.
Variable context : option ParseContext.

(** A result that leaves the loop was produced by one of the strategies
    and carries a move. *)
Lemma firstSuccess_inv (ss : list strategy) r :
  firstSuccess ss cleaned context = Some r ->
  exists strat, In strat ss /\ r = strat cleaned context
                /\ JS.truthy (san r) = true.
Proof.
  induction ss as [|strat ss IH]; simpl; [discriminate|].
  destruct (JS.truthy (san (strat cleaned context))) eqn:E.
  - intros [= <-]. exists strat. auto.
  - intros H. destruct (IH H) as (s' & Hin & Hr). exists s'. auto.
Qed.

(** The loop runs to its end when no strategy proposes a move. *)
Lemma firstSuccess_none (ss : list strategy) :
  (forall strat, In strat ss -> san (strat cleaned context) = None) ->
  firstSuccess ss cleaned context = None.
Proof.
  induction ss as [|strat ss IH]; simpl; intros H; [reflexivity|].
  rewrite (H strat (or_introl eq_refl)). simpl. apply IH. auto.
Qed.

End StrategyLoop.

Lemma truthy_some (o : option string) :
  JS.truthy o = true -> exists s, o = Some s.
Proof. destruct o as [s|]; [eauto | discriminate]. Qed.

(** The two ways out of [parseMove]. *)
Lemma parseMove_cases transcript context :
  (exists strat s,
      In strat strategies
      /\ parseMove transcript context = strat (cleanTranscript transcript) context
      /\ san (parseMove transcript context) = Some s)
  \/ parseMove transcript context = couldNotParse transcript.
Proof.
  unfold parseMove.
  destruct (firstSuccess strategies (cleanTranscript transcript) context)
    as [r|] eqn:E; [left | right; reflexivity].
  destruct (firstSuccess_inv _ _ _ _ E) as (strat & Hin & Hr & Ht).
  destruct (truthy_some _ Ht) as [s Hs].
  exists strat, s. auto.
Qed.

(** ** Claims settled by running the code *)

(** C3. The claim: [parseMove] on "castle short" with legal moves O-O and
    O-O-O returns O-O, and on "castle queen side" returns O-O-O.  The code:
    normalization rewrites the token "castle" to "rook" (the homophone table
    lists it among the rook synonyms), so the castling strategy never sees
    its keyword and both transcripts fall through to the failure result. *)
Theorem castle_transcripts_not_parsed :
  let context := Some (ctxOf ["O-O"; "O-O-O"]) in
  cleanTranscript "castle short" = "rook short"
  /\ parseMove "castle short" context = couldNotParse "castle short"
  /\ cleanTranscript "castle queen side" = "rook queen side"
  /\ parseMove "castle queen side" context = couldNotParse "castle queen side".
Proof. repeat split; vm_compute; reflexivity. Qed.

(** C4. The claim: [parseMove] on "pawn takes d5" with legal moves exd5,
    Nxd5, Qxd5 returns exd5.  The code: the first standard pattern matches,
    the empty pawn symbol is falsy so the piece becomes the upper-cased
    name, and the unvalidated move PAWNd5 is returned. *)
Theorem pawn_takes_d5_returns_PAWNd5 :
  parseMove "pawn takes d5" (Some (ctxOf ["exd5"; "Nxd5"; "Qxd5"]))
  = resultOf (Some "PAWNd5") 0.7 "pawn takes d5" None.
Proof. vm_compute. reflexivity. Qed.

(** C5. The claim: [formatMoveConfirmation] on e8=Q returns
    "Pawn to e-8, promotes to queen confirmed".  The code: the file letter
    of the destination is consumed by the disambiguation step, the
    destination step then reads "8" and "=", and the promotion is never
    seen. *)
Theorem promotion_e8Q_misread :
  TTS.formatMoveConfirmation "e8=Q" = "Pawn on e-file to 8-= confirmed"
  /\ TTS.formatMoveConfirmation "e8=Q"
     <> "Pawn to e-8, promotes to queen confirmed".
Proof. split; [vm_compute; reflexivity | vm_compute; discriminate]. Qed.

(** C6. The claim: normalization drops every token whose homophone-table
    entry is the empty string.  The code: in [homophones[word] || word] the
    empty entry is falsy, so the word itself comes back and survives the
    filter. *)
Theorem stop_words_survive :
  Forall (fun word => own homophones word = Some "" /\ substitute word = word)
         ["move"; "moves"; "go"; "goes"; "the"; "an"; "piece"; "pieces"]
  /\ cleanTranscript "move the knight to f3" = "move the knight 2 f3".
Proof. split; [repeat constructor | vm_compute; reflexivity]. Qed.

(** C7. The claim: with several legal moves to the spoken square and the
    token "pawn" in the text, the candidate without a piece letter is
    returned with confidence 0.85.  The code: the disambiguation loop does
    not try "pawn", so the pawn branch of its test is never reached and the
    parse fails. *)
Theorem pawn_never_disambiguates :
  let moves := ["exd5"; "Nxd5"] in
  cleanTranscript "pawn d5" = "pawn d5"
  /\ candidateMoves "d5" moves = ["exd5"; "Nxd5"]
  /\ filter (fun move => negb (hasPieceLetter move)) (candidateMoves "d5" moves)
     = ["exd5"]
  /\ parseMove "pawn d5" (Some (ctxOf moves)) = couldNotParse "pawn d5".
Proof. repeat split; vm_compute; reflexivity. Qed.

(** ** Claims about every call of [parseMove] *)

(** C8. For every transcript and every context, present or absent, the
    result of [parseMove] has [san] null exactly when its confidence is 0;
    a result with a move has a strictly positive confidence. *)
Theorem parseMove_null_iff_zero_confidence transcript context :
  (san (parseMove transcript context) = None
   <-> (confidence (parseMove transcript context) == 0)%Q)
  /\ (san (parseMove transcript context) <> None
      <-> (0 < confidence (parseMove transcript context))%Q).
Proof.
  assert (S : signed (parseMove transcript context)).
  { destruct (parseMove_cases transcript context)
      as [(strat & s & Hin & -> & _) | ->]; [|reflexivity].
    pose proof strategies_sound as F.
    rewrite Forall_forall in F. apply (F strat Hin). }
  unfold signed in S.
  destruct (san (parseMove transcript context)) as [s|].
  - split; split; try discriminate; try (intros; assumption).
    intros E. rewrite E in S. discriminate.
  - split; split; try reflexivity; try assumption; try congruence.
    intros L. rewrite S in L. discriminate.
Qed.

(** C9. Whenever no strategy produces a non-null [san] for the normalized
    transcript, [parseMove] returns exactly the failure result: no move,
    confidence 0, the error text "Could not parse chess move" and the
    original transcript. *)
Theorem parseMove_failure transcript context :
  (forall strat, In strat strategies ->
                 san (strat (cleanTranscript transcript) context) = None) ->
  parseMove transcript context
  = resultOf None 0 transcript (Some "Could not parse chess move").
Proof.
  intros H. unfold parseMove.
  rewrite (firstSuccess_none _ _ _ H). reflexivity.
Qed.


(** The transcript of the parser's own "unparseable" test is an instance of
    C9. *)
Lemma parseMove_failure_gibberish :
  let context := Some (ctxOf startMoves) in
  (forall strat, In strat strategies ->
     san (strat (cleanTranscript "gibberish nonsense") context) = None)
  /\ parseMove "gibberish nonsense" context
     = resultOf None 0 "gibberish nonsense" (Some "Could not parse chess move").
Proof.
  assert (H : forall strat, In strat strategies ->
     san (strat (cleanTranscript "gibberish nonsense")
                (Some (ctxOf startMoves))) = None).
  { intros strat [<-|[<-|[<-|[]]]]; vm_compute; reflexivity. }
  split; [exact H|].
  exact (parseMove_failure "gibberish nonsense" (Some (ctxOf startMoves)) H).
Defined.

(** ** Normalization *)

Section Tokens.

Lemma allChars_impl (p q : ascii -> bool) s :
  (forall a, p a = true -> q a = true) ->
  allChars p s = true -> allChars q s = true.
Proof.
  intros Hpq. induction s as [|a s IH]; simpl; [reflexivity|].
  rewrite !andb_true_iff. intros [Ha Hs]. auto.
Qed.

Lemma allChars_append p s t :
  allChars p (s ++ t) = allChars p s && allChars p t.
Proof.
  induction s as [|a s IH]; simpl; [reflexivity|].
  rewrite IH. apply andb_assoc.
Qed.

Lemma mapChars_fixed (f : ascii -> ascii) (p : ascii -> bool) s :
  (forall a, p a = true -> f a = a) ->
  allChars p s = true -> JS.mapChars f s = s.
Proof.
  intros Hf. induction s as [|a s IH]; simpl; [reflexivity|].
  rewrite andb_true_iff. intros [Ha Hs]. rewrite (Hf a Ha), (IH Hs).
  reflexivity.
Qed.

Lemma plainChar_notSpace a : plainChar a = true -> notSpace a = true.
Proof. revert a. intros a. each_ascii a. Qed.

Lemma plain_or_blank_lower a :
  plainChar a || blank a = true -> JS.lowerChar a = a.
Proof. each_ascii a. Qed.

Lemma plain_or_blank_kept a :
  plainChar a || blank a = true ->
  (if JS.isWordChar a || JS.isSpace a then a else " "%char) = a.
Proof. each_ascii a. Qed.

(** Joining plain tokens gives plain code units and single blanks. *)
Lemma join_plain ws :
  forallb (allChars plainChar) ws = true ->
  allChars (fun a => plainChar a || blank a) (JS.join ws) = true.
Proof.
  assert (W : forall w, allChars plainChar w = true ->
              allChars (fun a => plainChar a || blank a) w = true).
  { intros w. apply allChars_impl. intros a ->. reflexivity. }
  unfold JS.join.
  induction ws as [|w ws IH]; [reflexivity|].
  intros H. change (allChars plainChar w && forallb (allChars plainChar) ws = true) in H.
  apply andb_true_iff in H. destruct H as [Hw Hws].
  destruct ws as [|w' ws]; [exact (W w Hw)|].
  change (concat " " (w :: w' :: ws))
    with (w ++ " " ++ concat " " (w' :: ws))%string.
  rewrite !allChars_append, (W w Hw), (IH Hws). reflexivity.
Qed.

(** What [splitSpaces] does around one token. *)
Lemma splitSpaces_token w :
  allChars notSpace w = true -> JS.splitSpaces w = [w].
Proof.
  induction w as [|a w IH]; simpl; [reflexivity|].
  rewrite andb_true_iff. unfold notSpace at 1.
  intros [Ha Hw]. apply negb_true_iff in Ha. rewrite Ha, (IH Hw).
  reflexivity.
Qed.

Lemma splitSpaces_separator w rest :
  allChars notSpace w = true -> startsClean rest ->
  JS.splitSpaces (w ++ " " ++ rest) = w :: JS.splitSpaces rest.
Proof.
  intros Hw Hrest. induction w as [|a w IH].
  - change ("" ++ " " ++ rest)%string with (String " " rest).
    destruct rest as [|b rest]; [reflexivity|].
    simpl in Hrest.
    change (JS.splitSpaces (String " " (String b rest)))
      with (if JS.isSpace b then JS.splitSpaces (String b rest)
            else EmptyString :: JS.splitSpaces (String b rest)).
    rewrite Hrest. reflexivity.
  - simpl in Hw. rewrite andb_true_iff in Hw. destruct Hw as [Ha Hw].
    unfold notSpace in Ha. apply negb_true_iff in Ha.
    change (JS.splitSpaces (String a w ++ " " ++ rest))
      with (if JS.isSpace a
            then match (w ++ " " ++ rest)%string with
                 | String b _ =>
                     if JS.isSpace b then JS.splitSpaces (w ++ " " ++ rest)
                     else EmptyString :: JS.splitSpaces (w ++ " " ++ rest)
                 | EmptyString =>
                     EmptyString :: JS.splitSpaces (w ++ " " ++ rest)
                 end
            else match JS.splitSpaces (w ++ " " ++ rest) with
                 | t :: ts => String a t :: ts
                 | [] => [String a EmptyString]
                 end).
    rewrite Ha, (IH Hw). reflexivity.
Qed.

Lemma join_startsClean w ws :
  token w = true -> startsClean (JS.join (w :: ws)).
Proof.
  unfold token. rewrite andb_true_iff. intros [Hne Hw].
  destruct w as [|b w]; [discriminate Hne|].
  simpl in Hw. rewrite andb_true_iff in Hw. destruct Hw as [Hb _].
  apply plainChar_notSpace in Hb. unfold notSpace in Hb.
  apply negb_true_iff in Hb.
  unfold JS.join. simpl. destruct ws; exact Hb.
Qed.

Lemma splitSpaces_join w ws :
  forallb token (w :: ws) = true ->
  JS.splitSpaces (JS.join (w :: ws)) = w :: ws.
Proof.
  revert w. induction ws as [|w' ws IH]; intros w H.
  - simpl in H. rewrite andb_true_r in H. unfold token in H.
    apply andb_true_iff in H. destruct H as [_ H].
    apply splitSpaces_token.
    apply (allChars_impl plainChar); [apply plainChar_notSpace | exact H].
  - change (forallb token (w :: w' :: ws))
      with (token w && forallb token (w' :: ws)) in H.
    apply andb_true_iff in H. destruct H as [Hw H].
    change (JS.join (w :: w' :: ws))
      with (w ++ " " ++ JS.join (w' :: ws))%string.
    rewrite splitSpaces_separator.
    + rewrite (IH w' H). reflexivity.
    + unfold token in Hw. apply andb_true_iff in Hw.
      apply (allChars_impl plainChar); [apply plainChar_notSpace | apply Hw].
    + apply join_startsClean. simpl in H. apply andb_true_iff in H. apply H.
Qed.

End Tokens.

Lemma map_fixed (f : string -> string) ws :
  forallb (fun w => String.eqb (f w) w) ws = true -> map f ws = ws.
Proof.
  induction ws as [|w ws IH]; simpl; [reflexivity|].
  rewrite andb_true_iff, String.eqb_eq. intros [-> H]. rewrite (IH H).
  reflexivity.
Qed.

Lemma filter_fixed (p : string -> bool) ws :
  forallb p ws = true -> filter p ws = ws.
Proof.
  induction ws as [|w ws IH]; simpl; [reflexivity|].
  rewrite andb_true_iff. intros [-> H]. rewrite (IH H). reflexivity.
Qed.

Lemma forallb_filter (p : string -> bool) ws : forallb p (filter p ws) = true.
Proof.
  induction ws as [|w ws IH]; simpl; [reflexivity|].
  destruct (p w) eqn:E; simpl; [rewrite E|]; exact IH.
Qed.

Lemma forallb_and (p q : string -> bool) ws :
  forallb (fun w => p w && q w) ws = forallb p ws && forallb q ws.
Proof.
  induction ws as [|w ws IH]; simpl; [reflexivity|].
  rewrite IH. destruct (p w), (q w), (forallb p ws); reflexivity.
Qed.

(** Normalizing the joined text of canonical tokens gives the tokens
    back. *)
Lemma cleanedWords_join ws :
  forallb nonEmpty ws = true -> forallb canonical ws = true ->
  cleanedWords (JS.join ws) = ws.
Proof.
  intros Hne Hc. unfold canonical in Hc. rewrite forallb_and in Hc.
  apply andb_true_iff in Hc. destruct Hc as [Hplain Hfix].
  destruct ws as [|w ws]; [reflexivity|].
  pose proof (join_plain _ Hplain) as Hchars.
  unfold cleanedWords, JS.toLowerCase, JS.replacePunctuation.
  rewrite (mapChars_fixed _ _ _ plain_or_blank_lower Hchars).
  rewrite (mapChars_fixed _ _ _ plain_or_blank_kept Hchars).
  rewrite splitSpaces_join.
  - rewrite (map_fixed _ _ Hfix). apply filter_fixed, Hne.
  - unfold token. rewrite forallb_and, Hne, Hplain. reflexivity.
Qed.

(** C2, as stated: normalization is idempotent on every input.  The
    homophone table is not: it rewrites "bee" to the file letter "b" and
    "b" to "bishop" (likewise "castles" to "castle" and "castle" to "rook"),
    so a second pass changes the output of the first. *)
Lemma cleanTranscript_not_idempotent :
  cleanTranscript "bee" = "b"
  /\ cleanTranscript (cleanTranscript "bee") = "bishop"
  /\ ~ (forall x, cleanTranscript (cleanTranscript x) = cleanTranscript x).
Proof.
  split; [reflexivity|]. split; [reflexivity|].
  intros H. specialize (H "bee"). vm_compute in H. discriminate H.
Qed.

(** C2, amended.  For every input whose normalized tokens are all
    canonical (lower-case word tokens that the homophone lookup leaves
    unchanged), normalizing the output again returns it unchanged. *)
Theorem cleanTranscript_idempotent_on_canonical x :
  forallb canonical (cleanedWords x) = true ->
  cleanTranscript (cleanTranscript x) = cleanTranscript x.
Proof.
  intros H. unfold cleanTranscript.
  rewrite cleanedWords_join; [reflexivity| |exact H].
  unfold cleanedWords. apply forallb_filter.
Qed.

Lemma cleanTranscript_idempotent_knight_f3 :
  forallb canonical (cleanedWords "Knight to F3!") = true
  /\ cleanTranscript (cleanTranscript "Knight to F3!")
     = cleanTranscript "Knight to F3!".
Proof.
  split; [reflexivity|].
  apply (cleanTranscript_idempotent_on_canonical "Knight to F3!").
  reflexivity.
Defined.

(** ** The context-driven strategy *)

(** The square found by [squareMatch] is a file letter followed by a rank
    digit. *)
Lemma run_square i s :
  run (Group 1 square) i s [] (fun _ _ c => Some c)
  = match s with
    | String a (String b _) =>
        if JS.between 97 104 a && JS.between 49 56 b
        then Some [(1, String a (String b ""))] else None
    | _ => None
    end.
Proof.
  destruct s as [|a [|b s]]; cbn -[Nat.sub substring]; try reflexivity.
  - destruct (JS.between 97 104 a); reflexivity.
  - destruct (JS.between 97 104 a), (JS.between 49 56 b); try reflexivity.
    replace (S (S i) - i) with 2 by lia. destruct s; reflexivity.
Qed.

Lemma execFrom_square s : forall i m,
  execFrom (Group 1 square) i s = Some m ->
  exists a b, m = [(1, String a (String b ""))]
              /\ JS.between 97 104 a = true /\ JS.between 49 56 b = true.
Proof.
  induction s as [|a s IH]; intros i m;
    cbn [execFrom]; rewrite run_square; [discriminate|].
  destruct s as [|b s]; [apply IH|].
  destruct (JS.between 97 104 a) eqn:Ea, (JS.between 49 56 b) eqn:Eb;
    try apply IH.
  simpl. intros [= <-]. exists a, b. auto.
Qed.

Lemma squareMatch_shape cleaned d :
  squareMatch cleaned = Some d ->
  exists a b, d = String a (String b "")
              /\ JS.between 97 104 a = true /\ JS.between 49 56 b = true.
Proof.
  unfold squareMatch, exec.
  destruct (execFrom (Group 1 square) 0 cleaned) as [m|] eqn:E; [|discriminate].
  destruct (execFrom_square _ _ _ E) as (a & b & -> & Ha & Hb).
  simpl. intros [= <-]. exists a, b. auto.
Qed.

Lemma candidateMoves_truthy d moves m :
  (exists a b, d = String a (String b "")) ->
  In m (candidateMoves d moves) -> JS.truthy (Some m) = true.
Proof.
  intros (a & b & ->) Hin. unfold candidateMoves in Hin.
  apply filter_In in Hin. destruct Hin as [_ Hm].
  destruct m as [|c m]; [discriminate Hm | reflexivity].
Qed.

(** C1. The claim: when exactly one legal move goes to the square spoken
    in the transcript, [parseMove] returns that move with confidence at
    least 0.80.  The code: a bare square is itself matched by the third
    standard pattern, so the standard-pattern strategy answers first with
    the unvalidated text at 0.7, and the context-driven strategy, which
    finds the one legal move and would return it at 0.8, is never reached.
    The parser's test "should find unique legal moves to a square" expects
    Nf3 for this input. *)
Theorem bare_square_preempts_unique_move :
  let ctx := ctxOf ["Nf3"; "e4"; "d4"] in
  squareMatch (cleanTranscript "f3") = Some "f3"
  /\ candidateMoves "f3" (legalMoves ctx) = ["Nf3"]
  /\ parseWithContext (cleanTranscript "f3") (Some ctx)
     = resultOf (Some "Nf3") 0.8 "f3" None
  /\ parseMove "f3" (Some ctx) = resultOf (Some "f3") 0.7 "f3" None.
Proof. repeat split; vm_compute; reflexivity. Qed.

(** The same pre-emption when a piece is named: with Bf3 the only legal
    move to f3, "knight to f3" is answered with Nf3 at 0.7. *)
Example named_piece_preempts_unique_move :
  parseMove "knight to f3" (Some (ctxOf ["Bf3"]))
  = resultOf (Some "Nf3") 0.7 "knight 2 f3" None.
Proof. vm_compute. reflexivity. Qed.

(** Where the context-driven strategy is reached: when neither the
    standard-pattern strategy nor the castling strategy yields a move for
    the normalized transcript, and exactly one legal move goes to the square
    spoken in it, [parseMove] returns that legal move with confidence 0.8. *)
Lemma parseMove_unique_destination transcript ctx destination move :
  san (parseStandardMove (cleanTranscript transcript) (Some ctx)) = None ->
  san (parseCastling (cleanTranscript transcript) (Some ctx)) = None ->
  squareMatch (cleanTranscript transcript) = Some destination ->
  candidateMoves destination (legalMoves ctx) = [move] ->
  parseMove transcript (Some ctx)
  = resultOf (Some move) 0.8 (cleanTranscript transcript) None
  /\ (0.8 <= confidence (parseMove transcript (Some ctx)))%Q.
Proof.
  intros Hstd Hcastle Hsq Hcand.
  assert (Ht : JS.truthy (Some move) = true).
  { destruct (squareMatch_shape _ _ Hsq) as (a & b & Hd & _).
    apply (candidateMoves_truthy destination (legalMoves ctx)); [eauto|].
    rewrite Hcand. left. reflexivity. }
  assert (E : parseMove transcript (Some ctx)
              = resultOf (Some move) 0.8 (cleanTranscript transcript) None).
  { unfold parseMove, strategies, firstSuccess.
    rewrite Hstd, Hcastle.
    change (JS.truthy None) with false. cbv iota.
    unfold parseWithContext. rewrite Hsq, Hcand. cbv beta iota zeta.
    unfold san at 1. rewrite Ht. reflexivity. }
  split; [exact E|]. rewrite E. simpl. apply Qle_refl.
Qed.

Lemma parseMove_unique_destination_f3 :
  let ctx := ctxOf ["Nf3"; "e4"; "d4"] in
  parseMove "go to f3 now" (Some ctx)
  = resultOf (Some "Nf3") 0.8 "go 2 f3 now" None
  /\ (0.8 <= confidence (parseMove "go to f3 now" (Some ctx)))%Q.
Proof.
  apply (parseMove_unique_destination "go to f3 now"
           (ctxOf ["Nf3"; "e4"; "d4"]) "f3" "Nf3"); reflexivity.
Defined.

(** * Further properties of the parser *)

(** ** The matcher and its capture groups *)

Section Matcher.

Lemma run_star r1 i s c k :
  run (Star r1) i s c k = starLoop (run r1) k (String.length s) i s c.
Proof. reflexivity. Qed.

Lemma run_seq r1 r2 i s c k :
  run (Seq r1 r2) i s c k
  = run r1 i s c (fun i' s' c' => run r2 i' s' c' k).
Proof. reflexivity. Qed.

Lemma starLoop_extends r1 k :
  (forall i s c k m, run r1 i s c k = Some m -> extends r1 i s c k m) ->
  forall fuel i s c m,
    starLoop (run r1) k fuel i s c = Some m -> extends (Star r1) i s c k m.
Proof.
  intros IH. induction fuel as [|fuel IHf]; intros i s c m H.
  - exists i, s, []. split; [exact H | constructor].
  - cbn [starLoop] in H.
    destruct (run r1 i s c _) as [m'|] eqn:E.
    + injection H as ->.
      destruct (IH _ _ _ _ _ E) as (i1 & s1 & new1 & H1 & F1).
      destruct (String.length s1 <? String.length s); [|discriminate].
      destruct (IHf _ _ _ _ H1) as (i2 & s2 & new2 & H2 & F2).
      exists i2, s2, (new2 ++ new1). rewrite <- app_assoc. split; [exact H2|].
      apply Forall_app. split; [exact F2 | exact F1].
    + exists i, s, []. split; [exact H | constructor].
Qed.

Lemma run_extends r : forall i s c k m,
  run r i s c k = Some m -> extends r i s c k m.
Proof.
  induction r as [p|l|r1 IH1 r2 IH2|r1 IH1 r2 IH2|r1 IH1|r1 IH1|n r1 IH1| |];
    intros i s c k m H.
  - cbn [run] in H. destruct s as [|a s]; [discriminate|].
    destruct (p a); [|discriminate].
    exists (S i), s, []. split; [exact H | constructor].
  - cbn [run] in H. destruct (stripPrefix l s) as [s'|]; [|discriminate].
    exists (i + String.length l), s', []. split; [exact H | constructor].
  - cbn [run] in H.
    destruct (IH1 _ _ _ _ _ H) as (i1 & s1 & new1 & H1 & F1).
    destruct (IH2 _ _ _ _ _ H1) as (i2 & s2 & new2 & H2 & F2).
    exists i2, s2, (new2 ++ new1). rewrite <- app_assoc. split; [exact H2|].
    cbn [groupsOf]. apply Forall_app. split.
    + eapply Forall_impl; [|exact F2]. intros kv Hk. apply in_or_app. auto.
    + eapply Forall_impl; [|exact F1]. intros kv Hk. apply in_or_app. auto.
  - cbn [run] in H. destruct (run r1 i s c k) as [m'|] eqn:E.
    + injection H as ->.
      destruct (IH1 _ _ _ _ _ E) as (i1 & s1 & new1 & H1 & F1).
      exists i1, s1, new1. split; [exact H1|].
      eapply Forall_impl; [|exact F1]. intros kv Hk. cbn [groupsOf].
      apply in_or_app. auto.
    + destruct (IH2 _ _ _ _ _ H) as (i1 & s1 & new1 & H1 & F1).
      exists i1, s1, new1. split; [exact H1|].
      eapply Forall_impl; [|exact F1]. intros kv Hk. cbn [groupsOf].
      apply in_or_app. auto.
  - cbn [run] in H. destruct (run r1 i s c k) as [m'|] eqn:E.
    + injection H as ->. exact (IH1 _ _ _ _ _ E).
    + exists i, s, []. split; [exact H | constructor].
  - rewrite run_star in H. exact (starLoop_extends r1 k IH1 _ _ _ _ _ H).
  - cbn [run] in H.
    destruct (IH1 _ _ _ _ _ H) as (i1 & s1 & new1 & H1 & F1).
    exists i1, s1, ((n, substring 0 (i1 - i) s) :: new1).
    split; [exact H1|]. cbn [groupsOf]. constructor; [left; reflexivity|].
    eapply Forall_impl; [|exact F1]. intros kv Hk. right. exact Hk.
  - cbn [run] in H. destruct (i =? 0); [|discriminate].
    exists i, s, []. split; [exact H | constructor].
  - cbn [run] in H. destruct s; [|discriminate].
    exists i, "", []. split; [exact H | constructor].
Qed.

Lemma group_skip n new rest :
  Forall (fun kv : nat * string => fst kv <> n) new ->
  group n (new ++ rest) = group n rest.
Proof.
  induction 1 as [|[k v] new Hk _ IH]; [reflexivity|].
  cbn [app group]. simpl in Hk.
  destruct (k =? n) eqn:E; [apply Nat.eqb_eq in E; contradiction | exact IH].
Qed.

Lemma run_group_square i s c k m :
  run (Group 2 square) i s c k = Some m ->
  exists a b s',
    s = String a (String b s')
    /\ JS.between 97 104 a = true /\ JS.between 49 56 b = true
    /\ k (S (S i)) s' ((2, String a (String b "")) :: c) = Some m.
Proof.
  cbn -[Nat.sub substring].
  destruct s as [|a [|b s']]; try discriminate.
  - destruct (JS.between 97 104 a); discriminate.
  - destruct (JS.between 97 104 a) eqn:Ea; [|discriminate].
    destruct (JS.between 49 56 b) eqn:Eb; [|discriminate].
    replace (S (S i) - i) with 2 by lia.
    replace (substring 0 2 (String a (String b s')))
      with (String a (String b "")) by (destruct s'; reflexivity).
    intros H. exists a, b, s'. auto.
Qed.

(** In a match of such a pattern, group 2 is a square of the board. *)
Lemma capturesSquare_run r :
  capturesSquare r ->
  forall i s c m, run r i s c done = Some m ->
  exists d, group 2 m = Some d /\ isSquare d.
Proof.
  induction 1 as [rest Hrest | before rest _ IH]; intros i s c m H;
    rewrite run_seq in H.
  - destruct (run_group_square _ _ _ _ _ H) as (a & b & s' & -> & Ha & Hb & H').
    destruct (run_extends _ _ _ _ _ _ H') as (i2 & s2 & new & Hk & F).
    injection Hk as <-.
    exists (String a (String b "")). split; [|exists a, b; auto].
    rewrite group_skip; [reflexivity|].
    eapply Forall_impl; [|exact F]. intros [k0 v0] Hin E.
    simpl in Hin, E. subst k0. contradiction.
  - destruct (run_extends _ _ _ _ _ _ H) as (i1 & s1 & new & H1 & _).
    exact (IH _ _ _ _ H1).
Qed.

Lemma execFrom_run r s : forall i m,
  execFrom r i s = Some m -> exists i' s', run r i' s' [] done = Some m.
Proof.
  induction s as [|a s IH]; intros i m; cbn [execFrom]; fold done.
  - destruct (run r i "" [] done) eqn:E; [|discriminate].
    intros [= <-]. eauto.
  - destruct (run r i (String a s) [] done) eqn:E.
    + intros [= <-]. eauto.
    + apply IH.
Qed.

Lemma patterns_capture_square : Forall capturesSquare patterns.
Proof.
  unfold patterns, checkSuffix.
  repeat (apply Forall_cons || apply Forall_nil);
    repeat (first [ apply square_here; cbn; intuition lia
                  | apply square_later ]).
Qed.

Lemma firstMatch_square cleaned m :
  firstMatch patterns cleaned = Some m ->
  exists d, group 2 m = Some d /\ isSquare d.
Proof.
  pose proof patterns_capture_square as F.
  induction F as [|p ps Hp _ IH]; cbn [firstMatch]; [discriminate|].
  destruct (exec p cleaned) as [m'|] eqn:E; [|exact IH].
  intros [= <-]. unfold exec in E.
  destruct (execFrom_run _ _ _ _ E) as (i & s & R).
  exact (capturesSquare_run p Hp _ _ _ _ R).
Qed.

End Matcher.

(** ** The standard-pattern strategy *)

Lemma checkMark_cases (g3 : option string) :
  In (match g3 with
      | Some "check" => "+"
      | Some "checkmate" => "#"
      | _ => ""
      end) checkMarks.
Proof.
  unfold checkMarks.
  repeat match goal with
         | |- context [match ?x with _ => _ end] => destruct x
         end; simpl; auto.
Qed.

(** *** Where the destination stands in the text *)

Lemma append_assoc3 (a b c : string) :
  ((a ++ b) ++ c = a ++ b ++ c)%string.
Proof. induction a as [|x a IH]; cbn; [reflexivity | rewrite IH; reflexivity]. Qed.

Lemma stripPrefix_spec p : forall s s',
  stripPrefix p s = Some s' -> s = (p ++ s')%string.
Proof.
  induction p as [|a p IH]; intros s s'; cbn [stripPrefix].
  - intros [= <-]. reflexivity.
  - destruct s as [|b s]; [discriminate|].
    destruct (Ascii.eqb a b) eqn:E; [|discriminate].
    apply Ascii.eqb_eq in E. subst b. intros H.
    cbn. rewrite (IH _ _ H). reflexivity.
Qed.

Lemma starLoop_reaches r1 k :
  (forall i s c k m, run r1 i s c k = Some m -> reaches r1 i s c k m) ->
  forall fuel i s c m,
    starLoop (run r1) k fuel i s c = Some m -> reaches (Star r1) i s c k m.
Proof.
  intros IH. induction fuel as [|fuel IHf]; intros i s c m H.
  - exists i, s, [], "". repeat split; [exact H | constructor].
  - cbn [starLoop] in H.
    destruct (run r1 i s c _) as [m'|] eqn:E.
    + injection H as ->.
      destruct (IH _ _ _ _ _ E) as (i1 & s1 & new1 & u1 & H1 & F1 & S1).
      destruct (String.length s1 <? String.length s); [|discriminate].
      destruct (IHf _ _ _ _ H1) as (i2 & s2 & new2 & u2 & H2 & F2 & S2).
      exists i2, s2, (new2 ++ new1), (u1 ++ u2)%string.
      rewrite <- app_assoc. split; [exact H2|]. split.
      * apply Forall_app. split; [exact F2 | exact F1].
      * rewrite S1, S2. symmetry. apply append_assoc3.
    + exists i, s, [], "". repeat split; [exact H | constructor].
Qed.

Lemma run_reaches r : forall i s c k m,
  run r i s c k = Some m -> reaches r i s c k m.
Proof.
  induction r as [p|l|r1 IH1 r2 IH2|r1 IH1 r2 IH2|r1 IH1|r1 IH1|n r1 IH1| |];
    intros i s c k m H.
  - cbn [run] in H. destruct s as [|a s]; [discriminate|].
    destruct (p a); [|discriminate].
    exists (S i), s, [], (String a ""). repeat split; [exact H | constructor].
  - cbn [run] in H. destruct (stripPrefix l s) as [s'|] eqn:P; [|discriminate].
    exists (i + String.length l), s', [], l.
    split; [exact H|]. split; [constructor | exact (stripPrefix_spec _ _ _ P)].
  - rewrite run_seq in H.
    destruct (IH1 _ _ _ _ _ H) as (i1 & s1 & new1 & u1 & H1 & F1 & S1).
    destruct (IH2 _ _ _ _ _ H1) as (i2 & s2 & new2 & u2 & H2 & F2 & S2).
    exists i2, s2, (new2 ++ new1), (u1 ++ u2)%string.
    rewrite <- app_assoc. split; [exact H2|]. split.
    + cbn [groupsOf]. apply Forall_app. split.
      * eapply Forall_impl; [|exact F2]. intros kv Hk. apply in_or_app. auto.
      * eapply Forall_impl; [|exact F1]. intros kv Hk. apply in_or_app. auto.
    + rewrite S1, S2. symmetry. apply append_assoc3.
  - cbn [run] in H. destruct (run r1 i s c k) as [m'|] eqn:E.
    + injection H as ->.
      destruct (IH1 _ _ _ _ _ E) as (i1 & s1 & new1 & u1 & H1 & F1 & S1).
      exists i1, s1, new1, u1. split; [exact H1|]. split; [|exact S1].
      eapply Forall_impl; [|exact F1]. intros kv Hk. cbn [groupsOf].
      apply in_or_app. auto.
    + destruct (IH2 _ _ _ _ _ H) as (i1 & s1 & new1 & u1 & H1 & F1 & S1).
      exists i1, s1, new1, u1. split; [exact H1|]. split; [|exact S1].
      eapply Forall_impl; [|exact F1]. intros kv Hk. cbn [groupsOf].
      apply in_or_app. auto.
  - cbn [run] in H. destruct (run r1 i s c k) as [m'|] eqn:E.
    + injection H as ->. exact (IH1 _ _ _ _ _ E).
    + exists i, s, [], "". repeat split; [exact H | constructor].
  - rewrite run_star in H. exact (starLoop_reaches r1 k IH1 _ _ _ _ _ H).
  - cbn [run] in H.
    destruct (IH1 _ _ _ _ _ H) as (i1 & s1 & new1 & u1 & H1 & F1 & S1).
    exists i1, s1, ((n, substring 0 (i1 - i) s) :: new1), u1.
    split; [exact H1|]. split; [|exact S1].
    cbn [groupsOf]. constructor; [left; reflexivity|].
    eapply Forall_impl; [|exact F1]. intros kv Hk. right. exact Hk.
  - cbn [run] in H. destruct (i =? 0); [|discriminate].
    exists i, s, [], "". repeat split; [exact H | constructor].
  - cbn [run] in H. destruct s; [|discriminate].
    exists i, "", [], "". repeat split; [exact H | constructor].
Qed.

Lemma run_chr p i s c k :
  run (Chr p) i s c k
  = match s with
    | String a s' => if p a then k (S i) s' c else None
    | EmptyString => None
    end.
Proof. reflexivity. Qed.

(** One or more white-space units, then the continuation. *)
Lemma starLoop_spaces k : forall fuel i s c m,
  starLoop (run space) k fuel i s c = Some m ->
  exists ws s' i',
    allChars JS.isSpace ws = true /\ s = (ws ++ s')%string
    /\ k i' s' c = Some m.
Proof.
  induction fuel as [|fuel IH]; intros i s c m H.
  - exists "", s, i. auto.
  - cbn [starLoop] in H. unfold space at 1 in H. cbn [run] in H.
    destruct s as [|a s1]; [exists "", "", i; auto|].
    destruct (JS.isSpace a) eqn:A; [|exists "", (String a s1), i; auto].
    destruct (String.length s1 <? String.length (String a s1)).
    + destruct (starLoop (run space) k fuel (S i) s1 c) as [m'|] eqn:E.
      * injection H as ->.
        destruct (IH _ _ _ _ E) as (ws & s' & i' & W & S1 & K).
        exists (String a ws), s', i'. cbn [allChars append].
        rewrite A, W, S1. auto.
      * exists "", (String a s1), i. auto.
    + exists "", (String a s1), i. auto.
Qed.

Lemma run_spaces i s c k m :
  run (plus space) i s c k = Some m ->
  exists ws s' i',
    ws <> "" /\ allChars JS.isSpace ws = true /\ s = (ws ++ s')%string
    /\ k i' s' c = Some m.
Proof.
  unfold plus. rewrite run_seq. unfold space at 1. rewrite run_chr.
  destruct s as [|a s1]; [discriminate|].
  destruct (JS.isSpace a) eqn:A; [|discriminate].
  cbv beta. rewrite run_star. intros H.
  destruct (starLoop_spaces _ _ _ _ _ _ H) as (ws & s' & i' & W & S1 & K).
  exists (String a ws), s', i'. cbn [allChars append]. rewrite A, W, S1.
  repeat split; [discriminate | exact K].
Qed.

(** The check word, as group 3, up to the end of the text. *)
Lemma run_check_word i s c m :
  run (Group 3 (alts ["check"; "checkmate"])) i s c
      (fun i' s' c' => run Eos i' s' c' done) = Some m ->
  (s = "check" /\ m = (3, "check") :: c)
  \/ (s = "checkmate" /\ m = (3, "checkmate") :: c).
Proof.
  cbn [alts run].
  destruct (stripPrefix "check" s) as [s1|] eqn:P1.
  - apply stripPrefix_spec in P1. destruct s1 as [|x s1].
    + subst s. replace (i + String.length "check" - i) with 5
        by (cbn [String.length]; lia).
      intros [= <-]. left. split; reflexivity.
    + destruct (stripPrefix "checkmate" s) as [s2|] eqn:P2; [|discriminate].
      apply stripPrefix_spec in P2. destruct s2; [|discriminate].
      subst s. rewrite P2.
      replace (i + String.length "checkmate" - i) with 9
        by (cbn [String.length]; lia).
      intros [= <-]. right. split; reflexivity.
  - destruct (stripPrefix "checkmate" s) as [s2|] eqn:P2; [|discriminate].
    apply stripPrefix_spec in P2. destruct s2; [|discriminate].
    subst s. discriminate P1.
Qed.

Lemma run_check_suffix i s c m :
  run (Seq checkSuffix Eos) i s c done = Some m ->
  (s = "" /\ m = c)
  \/ exists ws word,
       ws <> "" /\ allChars JS.isSpace ws = true
       /\ s = (ws ++ word)%string /\ m = (3, word) :: c
       /\ (word = "check" \/ word = "checkmate").
Proof.
  rewrite run_seq. unfold checkSuffix.
  change (run (Opt ?r) ?i ?s ?c ?k)
    with (match run r i s c k with Some m' => Some m' | None => k i s c end).
  destruct (run (plus space >> Group 3 (alts ["check"; "checkmate"]))%re
              i s c (fun i' s' c' => run Eos i' s' c' done)) as [m'|] eqn:E.
  - intros [= <-]. right. rewrite run_seq in E.
    destruct (run_spaces _ _ _ _ _ E) as (ws & s' & i' & N & W & S1 & K).
    destruct (run_check_word _ _ _ _ K) as [[-> ->]|[-> ->]];
      exists ws; eexists; repeat split; eauto.
  - cbn [run]. destruct s; [|discriminate]. intros [= <-]. left. auto.
Qed.

Lemma group_none n c :
  Forall (fun kv : nat * string => fst kv <> n) c -> group n c = None.
Proof.
  intros F. rewrite <- (app_nil_r c). rewrite group_skip; [reflexivity | exact F].
Qed.

(** A match of such a pattern splits the text at the destination. *)
Lemma endsWithSquare_run r :
  endsWithSquare r ->
  forall i s c m,
    Forall (fun kv : nat * string => fst kv <> 3) c ->
    run r i s c done = Some m ->
    exists before d tail,
      s = (before ++ d ++ tail)%string /\ isSquare d /\ group 2 m = Some d
      /\ ((tail = "" /\ group 3 m = None)
          \/ exists ws word,
               ws <> "" /\ allChars JS.isSpace ws = true
               /\ tail = (ws ++ word)%string /\ group 3 m = Some word
               /\ (word = "check" \/ word = "checkmate")).
Proof.
  induction 1 as [|before rest Hb _ IH]; intros i s c m Fc H;
    rewrite run_seq in H.
  - destruct (run_group_square _ _ _ _ _ H) as (a & b & s' & -> & Ha & Hb & H').
    exists "", (String a (String b "")), s'.
    split; [reflexivity|]. split; [exists a, b; auto|].
    destruct (run_check_suffix _ _ _ _ H')
      as [[-> ->]|(ws & word & N & W & -> & -> & Hw)].
    + split; [reflexivity|]. left. split; [reflexivity|].
      cbn [group Nat.eqb]. apply group_none. exact Fc.
    + split; [reflexivity|]. right. exists ws, word.
      repeat split; auto.
  - destruct (run_reaches _ _ _ _ _ _ H) as (i1 & s1 & new & u & H1 & F & ->).
    assert (Fc' : Forall (fun kv : nat * string => fst kv <> 3) (new ++ c)).
    { apply Forall_app. split; [|exact Fc].
      eapply Forall_impl; [|exact F]. intros [k0 v0] Hin E.
      simpl in Hin, E. subst k0. contradiction. }
    destruct (IH _ _ _ _ Fc' H1) as (b0 & d & tail & -> & Sq & G2 & G3).
    exists (u ++ b0)%string, d, tail.
    split; [symmetry; apply append_assoc3|]. auto.
Qed.

Lemma execFrom_run_at r s : forall i m,
  execFrom r i s = Some m ->
  exists i' skipped s',
    s = (skipped ++ s')%string /\ run r i' s' [] done = Some m.
Proof.
  induction s as [|a s IH]; intros i m; cbn [execFrom]; fold done.
  - destruct (run r i "" [] done) eqn:E; [|discriminate].
    intros [= <-]. exists i, "", "". auto.
  - destruct (run r i (String a s) [] done) eqn:E.
    + intros [= <-]. exists i, "", (String a s). auto.
    + intros H. destruct (IH _ _ H) as (i' & sk & s' & -> & R).
      exists i', (String a sk), s'. auto.
Qed.

Lemma patterns_end_with_square : Forall endsWithSquare patterns.
Proof.
  unfold patterns.
  repeat (apply Forall_cons || apply Forall_nil);
    repeat (first [ apply ends_here
                  | apply ends_later; [cbn; intuition lia|] ]).
Qed.

Lemma firstMatch_split cleaned m :
  firstMatch patterns cleaned = Some m ->
  exists before d tail,
    cleaned = (before ++ d ++ tail)%string /\ isSquare d
    /\ group 2 m = Some d
    /\ ((tail = "" /\ group 3 m = None)
        \/ exists ws word,
             ws <> "" /\ allChars JS.isSpace ws = true
             /\ tail = (ws ++ word)%string /\ group 3 m = Some word
             /\ (word = "check" \/ word = "checkmate")).
Proof.
  pose proof patterns_end_with_square as F.
  induction F as [|p ps Hp _ IH]; cbn [firstMatch]; [discriminate|].
  destruct (exec p cleaned) as [m'|] eqn:E; [|exact IH].
  intros [= <-]. unfold exec in E.
  destruct (execFrom_run_at _ _ _ _ E) as (i & sk & s & -> & R).
  destruct (endsWithSquare_run p Hp _ _ _ _ (Forall_nil _) R)
    as (b0 & d & tail & -> & Sq & G2 & G3).
  exists (sk ++ b0)%string, d, tail.
  split; [symmetry; apply append_assoc3|]. auto.
Qed.

(** X1. Every move that the standard-pattern strategy proposes is built
    from the match of the first pattern that matches the normalized text:
    the piece prefix computed from group 1, then the text of group 2, then
    a marker.  Group 2 is a square of the board (a file letter a-h and a
    rank digit 1-8) that stands in the text right before its end or before
    white space and a final "check" or "checkmate"; the marker is empty in
    the first case, "+" for "check" and "#" for "checkmate". *)
Theorem parseStandardMove_san_shape cleaned context s :
  san (parseStandardMove cleaned context) = Some s ->
  exists m before d tail mark,
    firstMatch patterns cleaned = Some m
    /\ group 2 m = Some d /\ isSquare d
    /\ cleaned = (before ++ d ++ tail)%string
    /\ spokenMark tail mark /\ In mark checkMarks
    /\ s = (pieceOf m ++ d ++ mark)%string.
Proof.
  unfold parseStandardMove.
  destruct (firstMatch patterns cleaned) as [m|] eqn:E; [|discriminate].
  destruct (firstMatch_split _ _ E) as (before & d & tail & -> & Sq & G2 & G3).
  unfold standardResult. fold (pieceOf m). rewrite G2.
  intros H.
  assert (S : s = (pieceOf m ++ d ++ match group 3 m with
                                     | Some "check" => "+"
                                     | Some "checkmate" => "#"
                                     | _ => ""
                                     end)%string).
  { destruct context as [ctx|];
      [destruct (JS.arrayIncludes _ _)|]; injection H as <-; reflexivity. }
  clear H. exists m, before, d, tail.
  destruct G3 as [[-> G3]|(ws & word & N & W & -> & G3 & [-> | ->])];
    rewrite G3 in S; cbv iota in S.
  - exists "". repeat split; auto.
    + left. auto.
    + left. reflexivity.
  - exists "+". repeat split; auto.
    + right. left. exists ws. auto.
    + right. left. reflexivity.
  - exists "#". repeat split; auto.
    + right. right. exists ws. auto.
    + right. right. left. reflexivity.
Qed.

Lemma parseStandardMove_san_shape_queen_h5 :
  exists m before d tail mark,
    firstMatch patterns "queen 2 h5 check" = Some m
    /\ group 2 m = Some d /\ isSquare d
    /\ "queen 2 h5 check" = (before ++ d ++ tail)%string
    /\ spokenMark tail mark /\ In mark checkMarks
    /\ "Qh5+" = (pieceOf m ++ d ++ mark)%string.
Proof.
  apply (parseStandardMove_san_shape "queen 2 h5 check"
           (Some (ctxOf ["Qh5+"; "Qh4+"; "Bb5+"])) "Qh5+").
  reflexivity.
Defined.

Lemma shape_truthy piece d mark :
  isSquare d -> JS.truthy (Some (piece ++ d ++ mark)%string) = true.
Proof.
  intros (a & b & -> & _). destruct piece; reflexivity.
Qed.

(** A move proposed by the standard-pattern strategy is never empty. *)
Lemma parseStandardMove_truthy cleaned context s :
  san (parseStandardMove cleaned context) = Some s ->
  JS.truthy (Some s) = true.
Proof.
  unfold parseStandardMove.
  destruct (firstMatch patterns cleaned) as [m|] eqn:E; [|discriminate].
  destruct (firstMatch_square _ _ E) as (d & Hd & Sq).
  unfold standardResult. rewrite Hd.
  destruct context as [ctx|]; [destruct (JS.arrayIncludes _ _)|];
    intros [= <-]; apply shape_truthy; exact Sq.
Qed.

(** X2. Whenever a standard pattern matches the normalized transcript,
    [parseMove] returns the result of the standard-pattern strategy: the
    castling and the context-driven strategies are only consulted when no
    standard pattern matches. *)
Theorem parseMove_standard_first transcript context :
  san (parseStandardMove (cleanTranscript transcript) context) <> None ->
  parseMove transcript context
  = parseStandardMove (cleanTranscript transcript) context.
Proof.
  intros H. unfold parseMove, strategies. cbn [firstSuccess].
  destruct (san (parseStandardMove (cleanTranscript transcript) context))
    as [s|] eqn:E; [|contradiction].
  rewrite (parseStandardMove_truthy _ _ _ E). reflexivity.
Qed.

Lemma parseMove_standard_first_f3 :
  parseMove "f3" (Some (ctxOf ["Nf3"; "e4"; "d4"]))
  = parseStandardMove (cleanTranscript "f3") (Some (ctxOf ["Nf3"; "e4"; "d4"])).
Proof.
  apply (parseMove_standard_first "f3" (Some (ctxOf ["Nf3"; "e4"; "d4"]))).
  vm_compute. discriminate.
Defined.

(** ** The context-driven strategy, further *)

Lemma disambiguate_In pieces cleaned candidates m :
  disambiguate pieces cleaned candidates = Some m -> In m candidates.
Proof.
  induction pieces as [|piece rest IH]; cbn [disambiguate]; [discriminate|].
  destruct (JS.includes cleaned piece); [|exact IH].
  match goal with
  | |- context [find ?f candidates] => destruct (find f candidates) as [x|] eqn:F
  end.
  - destruct (JS.truthy (Some x)); [|exact IH].
    intros [= <-]. apply (find_some _ _ F).
  - cbn [JS.truthy]. exact IH.
Qed.

(** X3. A move returned by the context-driven strategy is one of the
    context's legal moves, contains the first square of the normalized text
    and contains no "O": the strategy never invents a move and never
    proposes castling. *)
Theorem parseWithContext_legal cleaned context m :
  san (parseWithContext cleaned context) = Some m ->
  exists ctx d,
    context = Some ctx /\ squareMatch cleaned = Some d
    /\ In m (legalMoves ctx)
    /\ JS.includes m d = true /\ JS.includes m "O" = false.
Proof.
  unfold parseWithContext.
  destruct context as [ctx|]; [|discriminate].
  destruct (squareMatch cleaned) as [d|]; [|discriminate].
  intros H. exists ctx, d. split; [reflexivity|]. split; [reflexivity|].
  assert (Hin : In m (candidateMoves d (legalMoves ctx))).
  { destruct (candidateMoves d (legalMoves ctx)) as [|m1 [|m2 ms]] eqn:C.
    - discriminate.
    - injection H as <-. left. reflexivity.
    - destruct (disambiguate _ _ _) as [found|] eqn:D; [|discriminate].
      injection H as <-. exact (disambiguate_In _ _ _ _ D). }
  unfold candidateMoves in Hin. apply filter_In in Hin.
  destruct Hin as [Hl Hf]. apply andb_true_iff in Hf. destruct Hf as [Hd Ho].
  apply negb_true_iff in Ho. auto.
Qed.

Lemma parseWithContext_legal_knight_f3 :
  exists ctx d,
    Some (ctxOf ["Nf3"; "Bf3"; "e4"]) = Some ctx
    /\ squareMatch "knight f3" = Some d
    /\ In "Nf3" (legalMoves ctx)
    /\ JS.includes "Nf3" d = true /\ JS.includes "Nf3" "O" = false.
Proof.
  apply (parseWithContext_legal "knight f3"
           (Some (ctxOf ["Nf3"; "Bf3"; "e4"])) "Nf3").
  reflexivity.
Defined.

(** ** Confidence *)

Lemma parseStandardMove_confidence cleaned context :
  let r := parseStandardMove cleaned context in
  (confidence r = 0%Q /\ san r = None)
  \/ (confidence r = 0.7%Q)
  \/ (confidence r = 0.9%Q
      /\ exists ctx s, context = Some ctx /\ san r = Some s
                       /\ In s (legalMoves ctx)).
Proof.
  unfold parseStandardMove.
  destruct (firstMatch patterns cleaned) as [m|]; [|left; split; reflexivity].
  unfold standardResult. destruct context as [ctx|]; [|right; left; reflexivity].
  match goal with
  | |- context [JS.arrayIncludes ?l ?x] =>
      destruct (JS.arrayIncludes l x) eqn:A; [|right; left; reflexivity]
  end.
  right. right. split; [reflexivity|].
  unfold JS.arrayIncludes in A. apply existsb_exists in A.
  destruct A as (x & Hin & Heq). apply String.eqb_eq in Heq. subst x.
  exists ctx. eexists. split; [reflexivity|]. split; [reflexivity | exact Hin].
Qed.

Lemma parseCastling_confidence cleaned context :
  In (confidence (parseCastling cleaned context)) [0; 0.8; 0.95]%Q.
Proof.
  unfold parseCastling.
  destruct (JS.includes cleaned "castle"); [|simpl; auto].
  destruct (_ || _); [simpl; auto|].
  destruct (_ || _); simpl; auto.
Qed.

Lemma parseWithContext_confidence cleaned context :
  let r := parseWithContext cleaned context in
  (confidence r = 0%Q /\ san r = None)
  \/ (confidence r = 0.8%Q \/ confidence r = 0.85%Q) /\ san r <> None.
Proof.
  unfold parseWithContext.
  destruct context as [ctx|]; [|left; split; reflexivity].
  destruct (squareMatch cleaned) as [d|]; [|left; split; reflexivity].
  destruct (candidateMoves d (legalMoves ctx)) as [|m1 [|m2 ms]].
  - left; split; reflexivity.
  - right. split; [left; reflexivity | discriminate].
  - destruct (disambiguate _ _ _); [|left; split; reflexivity].
    right. split; [right; reflexivity | discriminate].
Qed.

(** X4. The confidence of every result of [parseMove] is one of the six
    values 0, 0.7, 0.8, 0.85, 0.9 and 0.95, so it lies between 0 and 1. *)
Theorem parseMove_confidence_table transcript context :
  In (confidence (parseMove transcript context)) confidenceTable
  /\ (0 <= confidence (parseMove transcript context) <= 1)%Q.
Proof.
  assert (T : In (confidence (parseMove transcript context)) confidenceTable).
  { unfold confidenceTable.
    destruct (parseMove_cases transcript context)
      as [(strat & s & Hin & -> & _) | ->]; [|left; reflexivity].
    destruct Hin as [<-|[<-|[<-|[]]]].
    - destruct (parseStandardMove_confidence (cleanTranscript transcript) context)
        as [[-> _]|[->|[-> _]]]; simpl; auto 10.
    - pose proof (parseCastling_confidence (cleanTranscript transcript) context)
        as [<-|[<-|[<-|[]]]]; simpl; auto 10.
    - destruct (parseWithContext_confidence (cleanTranscript transcript) context)
        as [[-> _]|[[->| ->] _]]; simpl; auto 10. }
  split; [exact T|].
  unfold confidenceTable in T.
  destruct T as [<-|[<-|[<-|[<-|[<-|[<-|[]]]]]]];
    split; apply Qle_bool_imp_le; reflexivity.
Qed.

Lemma parseWithContext_In cleaned context m :
  san (parseWithContext cleaned context) = Some m ->
  exists ctx, context = Some ctx /\ In m (legalMoves ctx).
Proof.
  unfold parseWithContext.
  destruct context as [ctx|]; [|discriminate].
  destruct (squareMatch cleaned) as [d|]; [|discriminate].
  intros H. exists ctx. split; [reflexivity|].
  assert (Hin : In m (candidateMoves d (legalMoves ctx))).
  { destruct (candidateMoves d (legalMoves ctx)) as [|m1 [|m2 ms]] eqn:C.
    - discriminate.
    - injection H as <-. left. reflexivity.
    - destruct (disambiguate _ _ _) as [found|] eqn:D; [|discriminate].
      injection H as <-. exact (disambiguate_In _ _ _ _ D). }
  unfold candidateMoves in Hin. apply filter_In in Hin. apply Hin.
Qed.

(** X5. With a context, a result of confidence 0.9 or 0.85 carries a move
    that is one of the context's legal moves; without a context neither
    value is returned. *)
Theorem parseMove_validated transcript context :
  (confidence (parseMove transcript context) == 0.9)%Q
  \/ (confidence (parseMove transcript context) == 0.85)%Q ->
  exists ctx s,
    context = Some ctx
    /\ san (parseMove transcript context) = Some s
    /\ In s (legalMoves ctx).
Proof.
  destruct (parseMove_cases transcript context)
    as [(strat & s & Hin & E & Hs) | E].
  - rewrite E in Hs |- *. destruct Hin as [<-|[<-|[<-|[]]]].
    + destruct (parseStandardMove_confidence (cleanTranscript transcript) context)
        as [[-> _]|[->|[-> H]]]; intros [Q|Q]; try qabsurd Q.
      exact H.
    + pose proof (parseCastling_confidence (cleanTranscript transcript) context)
        as [<-|[<-|[<-|[]]]]; intros [Q|Q]; qabsurd Q.
    + intros _.
      destruct (parseWithContext_In _ _ _ Hs) as (ctx & -> & L).
      exists ctx, s. auto.
  - rewrite E. intros [Q|Q]; qabsurd Q.
Qed.

Lemma parseMove_validated_knight_f3 :
  exists ctx s,
    Some (ctxOf startMoves) = Some ctx
    /\ san (parseMove "knight to f3" (Some (ctxOf startMoves))) = Some s
    /\ In s (legalMoves ctx).
Proof.
  apply (parseMove_validated "knight to f3" (Some (ctxOf startMoves))).
  left. reflexivity.
Defined.

Lemma parseStandardMove_empty cleaned ctx :
  legalMoves ctx = [] ->
  parseStandardMove cleaned (Some ctx) = parseStandardMove cleaned None.
Proof.
  intros E. unfold parseStandardMove, standardResult.
  destruct (firstMatch patterns cleaned); [|reflexivity].
  rewrite E. reflexivity.
Qed.

Lemma parseWithContext_empty cleaned ctx :
  legalMoves ctx = [] ->
  parseWithContext cleaned (Some ctx) = parseWithContext cleaned None.
Proof.
  intros E. unfold parseWithContext. rewrite E.
  destruct (squareMatch cleaned); reflexivity.
Qed.

(** X6. A context without legal moves is worth no context: [parseMove]
    returns the same result for both, whatever the transcript. *)
Theorem parseMove_empty_context transcript ctx :
  legalMoves ctx = [] ->
  parseMove transcript (Some ctx) = parseMove transcript None.
Proof.
  intros E. unfold parseMove, strategies. cbn [firstSuccess].
  rewrite (parseStandardMove_empty _ _ E), (parseWithContext_empty _ _ E).
  reflexivity.
Qed.

Lemma parseMove_empty_context_knight_f3 :
  parseMove "knight to f3" (Some (ctxOf [])) = parseMove "knight to f3" None.
Proof.
  apply (parseMove_empty_context "knight to f3" (ctxOf [])). reflexivity.
Defined.

(** ** Finding the spoken square *)

Lemma prefix_two x y s :
  String.prefix (String x (String y "")) s = true
  <-> exists s', s = String x (String y s').
Proof.
  rewrite prefix_correct. cbn [String.length].
  destruct s as [|a [|b s']]; cbn [substring]; split.
  - discriminate.
  - intros [s' H]. discriminate H.
  - discriminate.
  - intros [s' H]. discriminate H.
  - replace (substring 0 0 s') with "" by (destruct s'; reflexivity).
    intros [= -> ->]. eauto.
  - intros [s0 [= -> -> ->]].
    replace (substring 0 0 s0) with "" by (destruct s0; reflexivity).
    reflexivity.
Qed.

Lemma execFrom_square_spec s : forall i,
  match execFrom (Group 1 square) i s with
  | Some m => exists d, m = [(1, d)] /\ isSquare d /\ JS.includes s d = true
  | None => forall d, isSquare d -> JS.includes s d = false
  end.
Proof.
  induction s as [|a s IH]; intros i; cbn [execFrom]; rewrite run_square.
  - intros d (x & y & -> & _). reflexivity.
  - assert (Here : forall d, isSquare d ->
              String.prefix d (String a s) = true ->
              exists b s', s = String b s'
                /\ JS.between 97 104 a && JS.between 49 56 b = true).
    { intros d (x & y & -> & Hx & Hy) P. apply prefix_two in P.
      destruct P as [s' [= <- ->]]. exists y, s'. rewrite Hx, Hy. auto. }
    assert (Skip : (forall b s', s = String b s' ->
                      JS.between 97 104 a && JS.between 49 56 b = false) ->
              match execFrom (Group 1 square) (S i) s with
              | Some m => exists d, m = [(1, d)] /\ isSquare d
                                    /\ JS.includes (String a s) d = true
              | None => forall d, isSquare d ->
                                  JS.includes (String a s) d = false
              end).
    { intros No. specialize (IH (S i)).
      destruct (execFrom (Group 1 square) (S i) s) as [m|].
      - destruct IH as (d & -> & Sq & In'). exists d.
        repeat split; [exact Sq|]. cbn [JS.includes]. rewrite In'.
        apply orb_true_r.
      - intros d Sq. cbn [JS.includes]. rewrite (IH d Sq), orb_false_r.
        destruct (String.prefix d (String a s)) eqn:P; [|reflexivity].
        destruct (Here d Sq P) as (b & s' & -> & T).
        rewrite (No b s' eq_refl) in T. discriminate T. }
    destruct s as [|b s'].
    + apply Skip. intros b s' E. discriminate E.
    + destruct (JS.between 97 104 a && JS.between 49 56 b) eqn:T.
      * exists (String a (String b "")).
        apply andb_true_iff in T. destruct T as [Ha Hb].
        repeat split.
        -- exists a, b. auto.
        -- cbn [JS.includes].
           replace (String.prefix (String a (String b "")) (String a (String b s')))
             with true; [reflexivity|].
           symmetry. apply prefix_two. eauto.
      * apply Skip. intros b0 s0 [= <- <-]. exact T.
Qed.

(** X7. [squareMatch] finds a square whenever the text contains one: its
    result is a file letter and a rank digit that occur next to each other
    in the text, and it gives nothing only when no such pair occurs. *)
Theorem squareMatch_complete cleaned :
  match squareMatch cleaned with
  | Some d => isSquare d /\ JS.includes cleaned d = true
  | None => forall d, isSquare d -> JS.includes cleaned d = false
  end.
Proof.
  unfold squareMatch, exec.
  pose proof (execFrom_square_spec cleaned 0) as H.
  destruct (execFrom (Group 1 square) 0 cleaned) as [m|]; [|exact H].
  destruct H as (d & -> & Sq & I). cbn. auto.
Qed.

(** ** Transcripts without words *)

Lemma noWord_blank a :
  negb (JS.isWordChar a) = true ->
  JS.isSpace
    (let a' := JS.lowerChar a in
     if JS.isWordChar a' || JS.isSpace a' then a' else " "%char) = true.
Proof. each_ascii a. Qed.

Lemma noWord_spaces text :
  noWordChar text = true ->
  allChars JS.isSpace (JS.replacePunctuation (JS.toLowerCase text)) = true.
Proof.
  unfold noWordChar, JS.replacePunctuation, JS.toLowerCase.
  induction text as [|a text IH]; cbn [allChars JS.mapChars]; [reflexivity|].
  rewrite andb_true_iff. intros [Ha Ht].
  rewrite (IH Ht), andb_true_r. exact (noWord_blank a Ha).
Qed.

Lemma splitSpaces_spaces s :
  allChars JS.isSpace s = true ->
  Forall (fun w => w = "") (JS.splitSpaces s).
Proof.
  induction s as [|a s IH]; [repeat constructor|].
  cbn [allChars]. rewrite andb_true_iff. intros [Ha Hs].
  specialize (IH Hs). cbn [JS.splitSpaces]. rewrite Ha.
  destruct s as [|b s']; [repeat constructor|].
  destruct (JS.isSpace b); [exact IH | constructor; [reflexivity | exact IH]].
Qed.

Lemma cleaned_empty ws :
  Forall (fun w => w = "") ws -> filter nonEmpty (map substitute ws) = [].
Proof.
  induction 1 as [|w ws -> _ IH]; [reflexivity | exact IH].
Qed.

(** X8. A transcript without a letter, digit or underscore (the empty
    transcript, white space, punctuation) normalizes to the empty string and
    is answered with the failure result, with or without a context. *)
Theorem parseMove_without_words transcript context :
  noWordChar transcript = true ->
  cleanTranscript transcript = ""
  /\ parseMove transcript context = couldNotParse transcript.
Proof.
  intros H.
  assert (E : cleanTranscript transcript = "").
  { unfold cleanTranscript, cleanedWords.
    rewrite (cleaned_empty _ (splitSpaces_spaces _ (noWord_spaces _ H))).
    reflexivity. }
  split; [exact E|].
  unfold parseMove. rewrite E. destruct context; reflexivity.
Qed.

Lemma parseMove_without_words_punctuation :
  cleanTranscript " ...?! " = ""
  /\ parseMove " ...?! " (Some (ctxOf startMoves)) = couldNotParse " ...?! ".
Proof.
  apply (parseMove_without_words " ...?! " (Some (ctxOf startMoves))).
  reflexivity.
Defined.

(** * Further properties of the spoken confirmations *)

(** ** Selecting a voice *)

Section Voices.

Import TTSConfirmation.

Variable voices : list Voice.t.

Lemma firstPreferred_In names english v :
  firstPreferred names english = Some v -> In v english.
Proof.
  induction names as [|n rest IH]; cbn [firstPreferred]; [discriminate|].
  destruct (find _ english) as [x|] eqn:F; [|exact IH].
  intros [= <-]. exact (proj1 (find_some _ _ F)).
Qed.

Lemma englishVoices_In v :
  In v (englishVoices voices) <-> In v voices /\ isEnglish v = true.
Proof. unfold englishVoices. apply filter_In. Qed.

(** X9. [selectVoice] picks one of the available voices, and picks none
    only when there is no voice at all. *)
Theorem selectVoice_available :
  match selectVoice voices with
  | Some v => In v voices
  | None => voices = []
  end.
Proof.
  unfold selectVoice.
  destruct (firstPreferred preferredNames (englishVoices voices)) as [v|] eqn:P.
  - apply firstPreferred_In in P. apply englishVoices_In in P. apply P.
  - destruct (englishVoices voices) as [|v vs] eqn:E.
    + destruct voices; [reflexivity | left; reflexivity].
    + assert (H : In v (englishVoices voices)) by (rewrite E; left; reflexivity).
      apply englishVoices_In in H. apply H.
Qed.

(** X10. As soon as one available voice is English (its language tag
    starts with "en"), the selected voice is English. *)
Theorem selectVoice_english v0 :
  In v0 voices -> isEnglish v0 = true ->
  exists v, selectVoice voices = Some v /\ isEnglish v = true.
Proof.
  intros Hin Hen.
  assert (H0 : In v0 (englishVoices voices)) by (apply englishVoices_In; auto).
  unfold selectVoice.
  destruct (firstPreferred preferredNames (englishVoices voices)) as [v|] eqn:P.
  - exists v. split; [reflexivity|].
    apply firstPreferred_In in P. apply englishVoices_In in P. apply P.
  - destruct (englishVoices voices) as [|v vs] eqn:E; [contradiction|].
    exists v. split; [reflexivity|].
    assert (H : In v (englishVoices voices)) by (rewrite E; left; reflexivity).
    apply englishVoices_In in H. apply H.
Qed.

Lemma firstPreferred_app before names english :
  Forall (fun n => forall v, In v english ->
                             JS.includes (Voice.name v) n = false) before ->
  firstPreferred (before ++ names) english = firstPreferred names english.
Proof.
  induction 1 as [|n before Hn _ IH]; [reflexivity|].
  cbn [app firstPreferred].
  destruct (find _ english) as [x|] eqn:F; [|exact IH].
  destruct (find_some _ _ F) as [Hin Hx].
  rewrite (Hn x Hin) in Hx. discriminate Hx.
Qed.

(** X11. The preferred names are tried in their order: when no English
    voice carries one of the earlier names, the first English voice whose
    name contains the next preferred name is selected, wherever it stands
    among the voices. *)
Theorem selectVoice_preferred before n after v :
  preferredNames = before ++ n :: after ->
  Forall (fun n' => forall v', In v' (englishVoices voices) ->
                               JS.includes (Voice.name v') n' = false) before ->
  find (fun v' => JS.includes (Voice.name v') n) (englishVoices voices) = Some v ->
  selectVoice voices = Some v.
Proof.
  intros Hn Hb Hf. unfold selectVoice.
  rewrite Hn, (firstPreferred_app _ _ _ Hb). cbn [firstPreferred].
  rewrite Hf. reflexivity.
Qed.

End Voices.

Lemma selectVoice_english_mock :
  exists v,
    TTSConfirmation.selectVoice
      [ {| Voice.name := "French Voice"; Voice.lang := "fr-FR" |};
        {| Voice.name := "Samantha"; Voice.lang := "en-US" |} ] = Some v
    /\ TTSConfirmation.isEnglish v = true.
Proof.
  apply (selectVoice_english _ {| Voice.name := "Samantha"; Voice.lang := "en-US" |}).
  - right. left. reflexivity.
  - reflexivity.
Defined.

Lemma selectVoice_preferred_alex :
  TTSConfirmation.selectVoice
    [ {| Voice.name := "Matthew"; Voice.lang := "fr-CA" |};
      {| Voice.name := "Samantha"; Voice.lang := "en-US" |};
      {| Voice.name := "Daniel (Enhanced)"; Voice.lang := "en-GB" |};
      {| Voice.name := "Alex"; Voice.lang := "en-US" |} ]
  = Some {| Voice.name := "Alex"; Voice.lang := "en-US" |}.
Proof.
  apply (selectVoice_preferred _ ["Matthew"] "Alex"
           ["Daniel"; "Fred"; "Karen"; "Moira"]).
  - reflexivity.
  - constructor; [|constructor].
    intros v' [<-|[<-|[<-|[]]]]; reflexivity.
  - reflexivity.
Defined.

(** ** Speaking *)

Section Speaking.

Import TTSConfirmation.

Lemma step_voice this c : voice (fst (step this c)) = voice this.
Proof. destruct c; reflexivity. Qed.

Lemma step_disabled this c :
  enabled this = false -> snd (step this c) = [].
Proof.
  intros E. destruct c; cbn [step snd];
    unfold confirmMove, announceCheck, announceCheckmate, announceStalemate,
      announceError, announceIllegalMove; rewrite ?E; reflexivity.
Qed.

Lemma step_stays_disabled this c :
  enabled this = false -> c <> SetEnabled true ->
  enabled (fst (step this c)) = false.
Proof.
  intros E N. destruct c as [ | | | | | |[|]]; try exact E;
    [contradiction | reflexivity].
Qed.

(** X12. While the object is disabled it is silent: from a disabled state,
    no sequence of calls that does not enable it again makes any call on
    the speech synthesis. *)
Theorem disabled_is_silent cs : forall this,
  enabled this = false ->
  Forall (fun c => c <> SetEnabled true) cs ->
  snd (runCalls this cs) = [].
Proof.
  induction cs as [|c cs IH]; intros this E F; [reflexivity|].
  inversion F as [|c' cs' Hc Hcs]; subst.
  cbn [runCalls].
  pose proof (step_disabled this c E) as S1.
  pose proof (step_stays_disabled this c E Hc) as S2.
  destruct (step this c) as [this' out]. cbn [fst snd] in S1, S2. subst out.
  specialize (IH this' S2 Hcs).
  destruct (runCalls this' cs) as [final out']. exact IH.
Qed.

Lemma step_pairs this c :
  exists texts,
    snd (step this c)
    = flat_map (fun text => [Cancel; Speak (utteranceFor (voice this) text)]) texts.
Proof.
  destruct c; cbn [step snd];
    unfold confirmMove, announceCheck, announceCheckmate, announceStalemate,
      announceError, announceIllegalMove;
    try (destruct (enabled this); cbn [negb];
         [eexists [_]; reflexivity | exists []; reflexivity]).
  exists []. reflexivity.
Qed.

(** X13. Whatever sequence of calls is made, the calls on the speech
    synthesis come in pairs: a [cancel], then [speak] with an utterance that
    has rate 0.9, pitch 1, volume 0.8 and the voice the object holds; and
    no call changes that voice. *)
Theorem speech_comes_in_pairs cs : forall this,
  voice (fst (runCalls this cs)) = voice this
  /\ exists texts,
       snd (runCalls this cs)
       = flat_map (fun text => [Cancel; Speak (utteranceFor (voice this) text)])
                  texts.
Proof.
  induction cs as [|c cs IH]; intros this.
  - split; [reflexivity | exists []; reflexivity].
  - cbn [runCalls].
    pose proof (step_voice this c) as V.
    destruct (step_pairs this c) as [texts1 P].
    destruct (step this c) as [this' out]. cbn [fst snd] in V, P.
    destruct (IH this') as [V' [texts2 P']].
    destruct (runCalls this' cs) as [final out']. cbn [fst snd] in *.
    split; [congruence|].
    exists (texts1 ++ texts2). rewrite flat_map_app, P, P', V. reflexivity.
Qed.

End Speaking.

(** ** The phrase for a move *)

(** X14. For a capture by a piece (piece letter, "x", two units for the
    destination, then nothing, "+" or "#") the phrase is the piece name,
    "takes", the destination as file-rank and the words for the check
    suffix. *)
Theorem capture_phrase letter pname f r mark phrase :
  In (letter, pname) TTS.pieceNames ->
  In (mark, phrase) checkPhrases ->
  TTS.formatMoveConfirmation (letter ++ "x" ++ unit f ++ unit r ++ mark)
  = (pname ++ " takes " ++ unit f ++ "-" ++ unit r ++ phrase ++ " confirmed")%string.
Proof.
  intros Hp Hm. unfold TTS.pieceNames, checkPhrases in *.
  each_member Hp; each_member Hm; reflexivity.
Qed.

Lemma capture_phrase_Nxe5 :
  TTS.formatMoveConfirmation "Nxe5+" = "Knight takes e-5, check confirmed".
Proof.
  apply (capture_phrase "N" "Knight" "e" "5" "+" ", check")%char;
    simpl; auto.
Defined.

(** X15. For a move that names the file it starts from (an optional piece
    letter, the file, an optional "x", the destination square, then nothing,
    "+" or "#") the phrase is the piece name or "Pawn", "on <file>-file",
    "takes" or "to", the destination as file-rank and the words for the
    check suffix. *)
Theorem disambiguated_phrase letter pname from capture f r mark phrase :
  In (letter, pname) spokenPieces ->
  In from fileLetters -> In f fileLetters ->
  In (mark, phrase) checkPhrases ->
  TTS.formatMoveConfirmation
    (letter ++ unit from ++ (if capture : bool then "x" else "")
       ++ unit f ++ unit r ++ mark)
  = (pname ++ " on " ++ unit from ++ "-file"
       ++ (if capture then " takes " else " to ")
       ++ unit f ++ "-" ++ unit r ++ phrase ++ " confirmed")%string.
Proof.
  intros Hp Hfrom Hf Hm.
  unfold spokenPieces, TTS.pieceNames, fileLetters, checkPhrases in *.
  each_member Hp; each_member Hm; each_unit Hfrom; each_unit Hf;
    destruct capture; reflexivity.
Qed.

Lemma disambiguated_phrase_Nbd7 :
  TTS.formatMoveConfirmation "Nbd7" = "Knight on b-file to d-7 confirmed".
Proof.
  apply (disambiguated_phrase "N" "Knight" "b" false "d" "7" "" "")%char;
    simpl; auto 10.
Defined.

(** X16. For a plain move (an optional piece letter, then only the
    destination file and rank) the file of the destination is read as the
    file the piece starts from, and no destination is spoken: the phrase is
    the piece name or "Pawn" followed by "on <file>-file to confirmed". *)
Theorem plain_move_phrase letter pname f r :
  In (letter, pname) spokenPieces ->
  In f fileLetters -> In r rankDigits ->
  TTS.formatMoveConfirmation (letter ++ unit f ++ unit r)
  = (pname ++ " on " ++ unit f ++ "-file to confirmed")%string.
Proof.
  intros Hp Hf Hr.
  unfold spokenPieces, TTS.pieceNames, fileLetters, rankDigits in *.
  each_member Hp; each_unit Hf; each_unit Hr; reflexivity.
Qed.

Lemma plain_move_phrase_Nf3 :
  TTS.formatMoveConfirmation "Nf3" = "Knight on f-file to confirmed".
Proof.
  apply (plain_move_phrase "N" "Knight" "f" "3")%char; simpl; auto 10.
Defined.

(** * Further properties of the bridge *)

Section Bridge.

Import VoiceBridge.

Variable env : environment.
Variable this : state.

Lemma parseMove_truthy_or_failure transcript context :
  JS.truthy (san (parseMove transcript context)) = true
  \/ parseMove transcript context = couldNotParse transcript.
Proof.
  unfold parseMove.
  destruct (firstSuccess strategies (cleanTranscript transcript) context)
    as [r|] eqn:E; [left | right; reflexivity].
  destruct (firstSuccess_inv _ _ _ _ E) as (strat & _ & _ & T). exact T.
Qed.

(** The illegal-move branch and the "Parse failed" text are dead. *)
Lemma processTranscript_live transcript :
  processTranscript env this transcript
  = tryCatch (liveBranches env this transcript) (handleVoiceError env this).
Proof.
  unfold processTranscript, liveBranches. cbv zeta. f_equal.
  destruct (parseMove_truthy_or_failure transcript
              (Some (getCurrentParseContext this))) as [T | ->].
  - destruct (san (parseMove transcript (Some (getCurrentParseContext this))))
      as [move|]; [|discriminate T].
    unfold isValidMove. rewrite T. reflexivity.
  - reflexivity.
Qed.

(** *** When nothing throws *)

Lemma perform_quiet es :
  (forall e, ends env e = Returns) -> perform env es = (es, Completed tt).
Proof.
  intros Q. induction es as [|e es IH]; [reflexivity|].
  cbn [perform]. unfold andThen, bind, call. rewrite Q, IH. reflexivity.
Qed.

Lemma forEach_quiet ls data :
  (forall e, ends env e = Returns) ->
  Forall (fun l => match l with
                   | OwnMove => True
                   | Other behaviour => forall d, behaviour d = Returns
                   end) ls ->
  forEach env this ls data = (heard this data ls, Completed tt).
Proof.
  intros Q F. induction F as [|l ls Hl _ IH].
  - destruct data as [|move source o c|]; try reflexivity.
    cbn [forEach heard]. destruct (String.eqb source "voice"); reflexivity.
  - cbn [forEach]. unfold andThen, bind. rewrite IH. clear IH.
    destruct l as [|behaviour]; cbn [invoke].
    + unfold onMove, heard.
      destruct data as [|move source o c|]; try reflexivity.
      destruct (String.eqb source "voice"); cbn [negb]; [|reflexivity].
      rewrite (perform_quiet _ Q). reflexivity.
    + rewrite Hl. cbn [ended app]. unfold heard.
      destruct data as [|move source o c|]; reflexivity.
Qed.

Lemma emit_quiet event data :
  quiet env ->
  emit env this event data
  = (Emit event data :: heard this data (listeners env event), Completed tt).
Proof.
  intros [Q L]. unfold emit, andThen, bind.
  rewrite (forEach_quiet _ _ Q (L event)). reflexivity.
Qed.

(** X17. Whatever its collaborators do, [processTranscript] never takes
    its illegal-move branch and never uses the text "Parse failed": it is
    the [try]/[catch] around the two live branches.  When no call throws it
    completes with one of exactly two records: for a proposed move, the
    move shown, "move" emitted with source "voice", the transcript as given
    and the parser's confidence, the confirmation spoken by the bridge's
    own move listener, then "voice:complete"; otherwise no move shown,
    "Could not understand move" announced and "voice:error" emitted with
    the parser's message. *)
Theorem processTranscript_outcome transcript :
  processTranscript env this transcript
  = tryCatch (liveBranches env this transcript) (handleVoiceError env this)
  /\ (quiet env ->
      let result := parseMove transcript (Some (getCurrentParseContext this)) in
      processTranscript env this transcript
      = (match san result with
         | Some move =>
             ShowParseResult (Some move)
             :: Emit "move" (MoveData move "voice" transcript (confidence result))
             :: confirmations this move (listeners env "move")
             ++ [Emit "voice:complete" NoData]
         | None =>
             ShowParseResult None
             :: map Synth (TTSConfirmation.announceError (ttsConfirmation this)
                             "Could not understand move")
             ++ [Emit "voice:error" (ErrorData "Could not parse chess move")]
         end, Completed tt)).
Proof.
  split; [apply processTranscript_live|].
  intros Q. cbv zeta. rewrite processTranscript_live. unfold liveBranches.
  cbv zeta.
  destruct (san (parseMove transcript (Some (getCurrentParseContext this))))
    as [move|].
  - rewrite !(emit_quiet _ _ Q). unfold andThen, bind, call.
    rewrite (proj1 Q). cbn [ended tryCatch app]. reflexivity.
  - rewrite (emit_quiet _ _ Q), (perform_quiet _ (proj1 Q)).
    unfold andThen, bind, call. rewrite (proj1 Q).
    cbn [ended tryCatch app]. reflexivity.
Qed.

(** *** What can be in the record *)

Lemma bind_In {A B : Type} (m : action A) (f : A -> action B) e :
  In e (fst (bind m f)) -> In e (fst m) \/ exists a, In e (fst (f a)).
Proof.
  unfold bind. destruct m as [trace [a|message]]; cbn [fst]; [|auto].
  destruct (f a) as [trace' r] eqn:E. cbn [fst]. intros H.
  apply in_app_or in H. destruct H as [H|H]; [left; exact H|].
  right. exists a. rewrite E. exact H.
Qed.

Lemma andThen_In {A B : Type} (m : action A) (n : action B) e :
  In e (fst (andThen m n)) -> In e (fst m) \/ In e (fst n).
Proof.
  intros H. apply bind_In in H. destruct H as [H|[_ H]]; auto.
Qed.

Lemma perform_In es e : In e (fst (perform env es)) -> In e es.
Proof.
  induction es as [|x es IH]; cbn [perform]; [intros []|].
  intros H. apply andThen_In in H. destruct H as [[H|[]]|H].
  - left. exact H.
  - right. exact (IH H).
Qed.

Lemma forEach_In ls data e :
  In e (fst (forEach env this ls data)) -> exists c, e = Synth c.
Proof.
  induction ls as [|l ls IH]; cbn [forEach]; [intros []|].
  intros H. apply andThen_In in H. destruct H as [H|H]; [|exact (IH H)].
  destruct l as [|behaviour]; cbn [invoke fst] in H; [|destruct H].
  unfold onMove in H. destruct data as [|move source o c|]; try destruct H.
  destruct (negb _); [destruct H|].
  apply perform_In in H. apply in_map_iff in H.
  destruct H as (c0 & <- & _). eauto.
Qed.

Lemma emit_In event data e :
  In e (fst (emit env this event data)) ->
  e = Emit event data \/ exists c, e = Synth c.
Proof.
  unfold emit. intros H. apply andThen_In in H.
  destruct H as [[H|[]]|H]; [left; symmetry; exact H|].
  right. exact (forEach_In _ _ _ H).
Qed.

Lemma tryCatch_In body handler e :
  In e (fst (tryCatch body handler)) ->
  In e (fst body) \/ exists message, In e (fst (handler message)).
Proof.
  unfold tryCatch. destruct body as [trace [a|message]]; cbn [fst]; [auto|].
  destruct (handler message) as [trace' r] eqn:E. cbn [fst]. intros H.
  apply in_app_or in H. destruct H as [H|H]; [left; exact H|].
  right. exists message. rewrite E. exact H.
Qed.

Lemma parseMove_no_context_confidence transcript :
  san (parseMove transcript None) <> None ->
  In (confidence (parseMove transcript None)) [0.7; 0.8; 0.95]%Q.
Proof.
  destruct (parseMove_cases transcript None)
    as [(strat & s & Hin & E & Hs) | E]; rewrite E; [|intros N; contradiction N; reflexivity].
  rewrite E in Hs. intros _.
  destruct Hin as [<-|[<-|[<-|[]]]].
  - destruct (parseStandardMove_confidence (cleanTranscript transcript) None)
      as [[_ N]|[->|[_ (ctx & _ & C & _)]]];
      [congruence | simpl; auto | discriminate C].
  - pose proof (parseCastling_sound (cleanTranscript transcript) None) as [Sg _].
    unfold signed in Sg. rewrite Hs in Sg.
    pose proof (parseCastling_confidence (cleanTranscript transcript) None)
      as [Z|[<-|[<-|[]]]]; [|simpl; auto|simpl; auto].
    rewrite <- Z in Sg. qabsurd Sg.
  - discriminate Hs.
Qed.

(** X18. As long as the bridge has no game state, or a game state without
    legal moves, every move it emits is unvalidated: the confidence it
    carries is 0.7, 0.8 or 0.95 and never 0.9 or 0.85. *)
Theorem unvalidated_without_legal_moves transcript move source text conf :
  legalMoves (getCurrentParseContext this) = [] ->
  In (Emit "move" (MoveData move source text conf))
     (fst (processTranscript env this transcript)) ->
  In conf [0.7; 0.8; 0.95]%Q.
Proof.
  intros E Hin.
  assert (P : parseMove transcript (Some (getCurrentParseContext this))
              = parseMove transcript None).
  { unfold parseMove, strategies. cbn [firstSuccess].
    rewrite (parseStandardMove_empty _ _ E), (parseWithContext_empty _ _ E).
    reflexivity. }
  rewrite processTranscript_live in Hin. apply tryCatch_In in Hin.
  destruct Hin as [Hin | [message Hin]].
  - unfold liveBranches in Hin. cbv zeta in Hin. rewrite P in Hin.
    pose proof (parseMove_no_context_confidence transcript) as C.
    destruct (san (parseMove transcript None)) as [m|].
    + specialize (C ltac:(discriminate)).
      apply andThen_In in Hin. destruct Hin as [[H|[]]|Hin]; [discriminate H|].
      apply andThen_In in Hin. destruct Hin as [Hin|Hin];
        apply emit_In in Hin; destruct Hin as [H|[c H]]; try discriminate H.
      injection H as _ _ _ ->. exact C.
    + exfalso. apply andThen_In in Hin.
      destruct Hin as [[H|[]]|Hin]; [discriminate H|].
      apply andThen_In in Hin. destruct Hin as [Hin|Hin].
      * apply perform_In in Hin. apply in_map_iff in Hin.
        destruct Hin as (c & H & _). discriminate H.
      * apply emit_In in Hin. destruct Hin as [H|[c H]]; discriminate H.
  - exfalso. unfold handleVoiceError in Hin. apply andThen_In in Hin.
    destruct Hin as [Hin|[H|[]]]; [|discriminate H].
    apply emit_In in Hin. destruct Hin as [H|[c H]]; discriminate H.
Qed.

End Bridge.

(** In the starting state, with the bridge's own listener on the bus and a
    speech object that throws on every call. *)
Lemma unvalidated_without_legal_moves_start :
  In 0.7%Q [0.7; 0.8; 0.95]%Q.
Proof.
  apply (unvalidated_without_legal_moves
           {| VoiceBridge.listeners :=
                fun event => if String.eqb event "move"
                             then [VoiceBridge.OwnMove] else [];
              VoiceBridge.ends :=
                fun e => match e with
                         | VoiceBridge.Synth _ =>
                             VoiceBridge.Throws "not allowed"
                         | _ => VoiceBridge.Returns
                         end |}
           {| VoiceBridge.currentGameState := None;
              VoiceBridge.ttsConfirmation := TTSConfirmation.create [] |}
           "knight to f3" "Nf3" "voice" "knight to f3" 0.7%Q).
  - reflexivity.
  - vm_compute. right. left. reflexivity.
Defined.

Lemma processTranscript_outcome_start :
  let env := {| VoiceBridge.listeners :=
                  fun event => if String.eqb event "move"
                               then [VoiceBridge.OwnMove] else [];
                VoiceBridge.ends := fun _ => VoiceBridge.Returns |} in
  let this := {| VoiceBridge.currentGameState := None;
                 VoiceBridge.ttsConfirmation := TTSConfirmation.create [] |} in
  VoiceBridge.processTranscript env this "knight to f3"
  = ( [ VoiceBridge.ShowParseResult (Some "Nf3");
        VoiceBridge.Emit "move"
          (VoiceBridge.MoveData "Nf3" "voice" "knight to f3" 0.7);
        VoiceBridge.Synth TTSConfirmation.Cancel;
        VoiceBridge.Synth
          (TTSConfirmation.Speak
             (utteranceFor None "Knight on f-file to confirmed"));
        VoiceBridge.Emit "voice:complete" VoiceBridge.NoData ],
      VoiceBridge.Completed tt ).
Proof.
  intros env this.
  assert (Q : quiet env).
  { split; [reflexivity|]. intros event. cbn.
    destruct (String.eqb event "move"); repeat constructor. }
  rewrite (proj2 (processTranscript_outcome env this "knight to f3") Q).
  vm_compute. reflexivity.
Defined.

Lemma disabled_is_silent_calls :
  let this := TTSConfirmation.setEnabled (TTSConfirmation.create []) false in
  let cs := [ TTSConfirmation.ConfirmMove "Nf3"; TTSConfirmation.AnnounceCheck;
              TTSConfirmation.SetEnabled false;
              TTSConfirmation.AnnounceError "Invalid move" ] in
  snd (TTSConfirmation.runCalls this cs) = [].
Proof.
  apply (disabled_is_silent
           [ TTSConfirmation.ConfirmMove "Nf3"; TTSConfirmation.AnnounceCheck;
             TTSConfirmation.SetEnabled false;
             TTSConfirmation.AnnounceError "Invalid move" ]
           (TTSConfirmation.setEnabled (TTSConfirmation.create []) false)).
  - reflexivity.
  - repeat constructor; discriminate.
Defined.

(** * Further properties of normalization and of the result *)

Lemma cleanedWords_skip a text :
  negb (JS.isWordChar a) = true ->
  cleanedWords (String a text) = cleanedWords text.
Proof.
  intros H. pose proof (noWord_blank a H) as B. cbv zeta in B.
  unfold cleanedWords, JS.replacePunctuation, JS.toLowerCase.
  cbn [JS.mapChars JS.splitSpaces]. rewrite B.
  match goal with
  | |- context [JS.splitSpaces ?s] => destruct s as [|b s'] eqn:R
  end; [reflexivity|].
  destruct (JS.isSpace b); reflexivity.
Qed.

(** X19. Punctuation and white space in front of a transcript do not
    change its normalization. *)
Theorem cleanTranscript_leading_ignored front text :
  noWordChar front = true ->
  cleanTranscript (front ++ text) = cleanTranscript text.
Proof.
  unfold cleanTranscript, noWordChar.
  induction front as [|a front IH]; cbn [allChars append]; [reflexivity|].
  rewrite andb_true_iff. intros [Ha Hf].
  rewrite (cleanedWords_skip a _ Ha). exact (IH Hf).
Qed.

Lemma cleanTranscript_leading_ignored_dots :
  cleanTranscript ("... " ++ "knight to f3") = cleanTranscript "knight to f3".
Proof.
  apply (cleanTranscript_leading_ignored "... " "knight to f3"). reflexivity.
Defined.

Lemma strategies_no_error strat cleaned context :
  In strat strategies -> error (strat cleaned context) = None.
Proof.
  intros [<-|[<-|[<-|[]]]].
  - unfold parseStandardMove, standardResult.
    destruct (firstMatch patterns cleaned); [|reflexivity].
    destruct context; [destruct (JS.arrayIncludes _ _)|]; reflexivity.
  - unfold parseCastling.
    destruct (JS.includes cleaned "castle"); [|reflexivity].
    destruct (_ || _); [reflexivity|]. destruct (_ || _); reflexivity.
  - unfold parseWithContext. destruct context as [ctx|]; [|reflexivity].
    destruct (squareMatch cleaned) as [d|]; [|reflexivity].
    destruct (candidateMoves d (legalMoves ctx)) as [|m1 [|m2 ms]];
      try reflexivity.
    destruct (disambiguate _ _ _); reflexivity.
Qed.

(** X20. A result of [parseMove] carries either a move or an error text,
    never both and never neither; a move is never the empty string, and the
    error text is always "Could not parse chess move". *)
Theorem parseMove_move_or_error transcript context :
  match san (parseMove transcript context) with
  | Some move => move <> "" /\ error (parseMove transcript context) = None
  | None =>
      error (parseMove transcript context) = Some "Could not parse chess move"
  end.
Proof.
  unfold parseMove.
  destruct (firstSuccess strategies (cleanTranscript transcript) context)
    as [r|] eqn:E; [|reflexivity].
  destruct (firstSuccess_inv _ _ _ _ E) as (strat & Hin & -> & T).
  destruct (san (strat (cleanTranscript transcript) context)) as [move|];
    [|discriminate T].
  split; [|exact (strategies_no_error strat _ _ Hin)].
  intros ->. discriminate T.
Qed.

Lemma disambiguate_named pieces cleaned candidates m :
  disambiguate pieces cleaned candidates = Some m ->
  exists piece symbol,
    In piece pieces /\ JS.includes cleaned piece = true
    /\ symbol = match lookup pieceSymbols piece with
                | Some v => v
                | None => "undefined"
                end
    /\ (JS.startsWith m symbol = true
        \/ symbol = "" /\ hasPieceLetter m = false).
Proof.
  induction pieces as [|piece rest IH]; cbn [disambiguate]; [discriminate|].
  destruct (JS.includes cleaned piece) eqn:I.
  - match goal with
    | |- context [find ?f candidates] => destruct (find f candidates) as [x|] eqn:F
    end.
    + destruct (JS.truthy (Some x)).
      * intros [= <-]. destruct (find_some _ _ F) as [_ P].
        exists piece. eexists. split; [left; reflexivity|].
        split; [exact I|]. split; [reflexivity|].
        apply orb_true_iff in P. destruct P as [P|P]; [left; exact P|].
        right. apply andb_true_iff in P. destruct P as [P1 P2].
        apply String.eqb_eq in P1. apply negb_true_iff in P2.
        split; [exact P1 | exact P2].
      * intros H. destruct (IH H) as (p & sy & Hin & R). exists p, sy.
        split; [right; exact Hin | exact R].
    + cbn [JS.truthy]. intros H.
      destruct (IH H) as (p & sy & Hin & R). exists p, sy.
        split; [right; exact Hin | exact R].
  - intros H. destruct (IH H) as (p & sy & Hin & R). exists p, sy.
        split; [right; exact Hin | exact R].
Qed.

(** X21. When several legal moves share the spoken square, the
    context-driven strategy only returns a move that starts with the letter
    of a piece named in the normalized text (N, Q, K, R or B); a move
    without a piece letter is never chosen among several. *)
Theorem parseWithContext_disambiguated cleaned context m :
  san (parseWithContext cleaned context) = Some m ->
  (confidence (parseWithContext cleaned context) == 0.85)%Q ->
  exists piece symbol,
    In (piece, symbol)
       [("knight", "N"); ("queen", "Q"); ("king", "K"); ("rook", "R");
        ("bishop", "B")]
    /\ JS.includes cleaned piece = true
    /\ JS.startsWith m symbol = true
    /\ hasPieceLetter m = true.
Proof.
  unfold parseWithContext.
  destruct context as [ctx|]; [|discriminate].
  destruct (squareMatch cleaned) as [d|]; [|discriminate].
  destruct (candidateMoves d (legalMoves ctx)) as [|m1 [|m2 ms]];
    [discriminate | intros _ Q; qabsurd Q |].
  destruct (disambiguate _ _ _) as [found|] eqn:D; [|discriminate].
  intros [= <-] _.
  destruct (disambiguate_named _ _ _ _ D) as (piece & symbol & Hin & I & S & P).
  unfold disambiguationPieces in Hin.
  assert (L : forall letter, JS.startsWith found letter = true ->
              In letter ["N"; "Q"; "K"; "R"; "B"] ->
              hasPieceLetter found = true).
  { intros letter St Hl. destruct found as [|c rest];
      [each_unit Hl; discriminate St|].
    each_unit Hl; unfold JS.startsWith in St; cbn [String.prefix] in St;
      destruct (ascii_dec _ c) as [<-|]; try discriminate St; reflexivity. }
  subst symbol. each_unit Hin; cbn in P;
    (destruct P as [P|[P _]]; [|discriminate P]);
    eexists; eexists;
    (split; [|split; [exact I|split; [exact P|]]]);
    [ left; reflexivity | apply (L _ P); simpl; auto
    | right; left; reflexivity | apply (L _ P); simpl; auto
    | do 2 right; left; reflexivity | apply (L _ P); simpl; auto
    | do 3 right; left; reflexivity | apply (L _ P); simpl; auto
    | do 4 right; left; reflexivity | apply (L _ P); simpl; auto 10 ].
Qed.

Lemma parseWithContext_disambiguated_knight_f3 :
  exists piece symbol,
    In (piece, symbol)
       [("knight", "N"); ("queen", "Q"); ("king", "K"); ("rook", "R");
        ("bishop", "B")]
    /\ JS.includes "knight f3" piece = true
    /\ JS.startsWith "Nf3" symbol = true
    /\ hasPieceLetter "Nf3" = true.
Proof.
  apply (parseWithContext_disambiguated "knight f3"
           (Some (ctxOf ["Nf3"; "Bf3"; "e4"])) "Nf3"); reflexivity.
Defined.
